(** * Frogger Q-table agent: a shallow embedding of [a4_base/agent/agent.py]

    The development follows the source file top to bottom: the augmented
    game state [Q_State] (key encoding and reward), then the [Agent]
    (table load/save, lazy initialisation, epsilon-greedy selection, the
    temporal-difference update and the per-tick entry point
    [choose_action]).

    Modelling conventions.
    - Python [float] is IEEE-754 binary64 with round-to-nearest-even, which
      is exactly Rocq's primitive [float]; the arithmetic of the update rule
      is therefore evaluated bit for bit.  The integer literals the source
      mixes into float arithmetic ([0], [1], [-10], [100], the draw of
      [randrange]) are embedded by their exact binary64 value, which is what
      Python's int-to-float coercion produces for them.
    - The Q-table [self.q] is a [dict] from key strings to lists: a
      [gmap string (list float)].  Every list stored in it is created
      fresh ([[0,0,0,0,0]] literal, or by [json.load]), so no two keys
      alias one list and an in-place write is a map update at one key.
    - Exceptions are values of [exn]; a method that may raise returns a
      [result].
    - The two calls into [random] are resolved by an explicit [Draw]. *)

From Stdlib Require Import ZArith List Lia Bool.
From Stdlib Require Import Floats.PrimFloat Floats.SpecFloat Floats.FloatOps.
From Stdlib Require Import Floats.FloatAxioms.
From Stdlib Require Import Numbers.Cyclic.Int63.Uint63.
From stdpp Require Import base option list strings gmap.

Set Warnings "-inexact-float".
Local Open Scope Z_scope.

(** ** Numbers *)

Module Num.

Definition fadd : float -> float -> float := PrimFloat.add.
Definition fsub : float -> float -> float := PrimFloat.sub.
Definition fmul : float -> float -> float := PrimFloat.mul.
Definition flt : float -> float -> bool := PrimFloat.ltb.
Definition fle : float -> float -> bool := PrimFloat.leb.
Definition feq : float -> float -> bool := PrimFloat.eqb.

(** Python's coercion of a small non-negative [int] to [float]. *)
Definition of_int (z : Z) : float := PrimFloat.of_uint63 (Uint63.of_Z z).

Definition zero : float := 0%float.
Definition one : float := 1%float.
Definition ten : float := 10%float.
Definition minus_ten : float := (-10)%float.
Definition hundred : float := 100%float.

End Num.

(** ** Exceptions and results *)

Inductive exn : Type :=
| KeyError
| ValueError
| IndexError
| TypeError
| AttributeError
| UnboundLocalError
| JSONDecodeError
| FileDoesNotExist.

Inductive result (A : Type) : Type :=
| Ok (a : A)
| Raise (e : exn).

Arguments Ok {A} a.
Arguments Raise {A} e.

Definition bind {A B : Type} (m : result A) (k : A -> result B) : result B :=
  match m with
  | Ok a => k a
  | Raise e => Raise e
  end.

Notation "'do' x <- m ; k" := (bind m (fun x => k))
  (at level 10, x pattern, m at level 100, k at level 200).

Definition of_option {A : Type} (e : exn) (o : option A) : result A :=
  match o with
  | Some a => Ok a
  | None => Raise e
  end.

(** ** The game state *)

(** Modelled from the spec: the base class [State] (module [.state]) is not
    part of the sources.  Only what [agent.py] reads of it is kept: the
    frog's position, the cell accessor ([None] for an absent cell), the two
    flags and the score. *)
Record State : Type := mkState {
  frog_x : Z;
  frog_y : Z;
  get : Z -> Z -> option string;
  at_goal : bool;
  is_done : bool;
  score : float
}.

(** Modelled from the spec: the action vocabulary [State.ACTIONS] is
    declared in the missing module; the spec and the comment in
    [actionToIndex] give it as [['u', 'd', 'l', 'r', '_']]. *)
Inductive Action : Type := u | d | l | r | stay.

Definition ACTIONS : list Action := [u; d; l; r; stay].

Definition action_string (a : Action) : string :=
  match a with
  | u => "u"
  | d => "d"
  | l => "l"
  | r => "r"
  | stay => "_"
  end.

(** [x or '_']: Python's [or] keeps [x] unless it is falsy, and both [None]
    and the empty string are falsy. *)
Definition or_underscore (x : option string) : string :=
  match x with
  | Some s => if decide (s = "") then "_" else s
  | None => "_"
  end.

Definition join (parts : list string) : string :=
  foldr String.append "" parts.

Definition _compute_key (s : State) : string :=
  join [
    or_underscore (get s (frog_x s - 2) (frog_y s - 1));
    or_underscore (get s (frog_x s - 1) (frog_y s - 1));
    or_underscore (get s (frog_x s) (frog_y s - 1));
    or_underscore (get s (frog_x s + 1) (frog_y s - 1));
    or_underscore (get s (frog_x s + 2) (frog_y s - 1));
    or_underscore (get s (frog_x s - 2) (frog_y s - 2));
    or_underscore (get s (frog_x s - 1) (frog_y s - 2));
    or_underscore (get s (frog_x s) (frog_y s - 2));
    or_underscore (get s (frog_x s + 1) (frog_y s - 2));
    or_underscore (get s (frog_x s + 2) (frog_y s - 2));
    or_underscore (get s (frog_x s - 2) (frog_y s));
    or_underscore (get s (frog_x s - 1) (frog_y s));
    or_underscore (get s (frog_x s) (frog_y s));
    or_underscore (get s (frog_x s + 1) (frog_y s));
    or_underscore (get s (frog_x s + 2) (frog_y s));
    or_underscore (get s (frog_x s - 2) (frog_y s + 1));
    or_underscore (get s (frog_x s - 1) (frog_y s + 1));
    or_underscore (get s (frog_x s) (frog_y s + 1));
    or_underscore (get s (frog_x s + 1) (frog_y s + 1));
    or_underscore (get s (frog_x s + 2) (frog_y s + 1))
  ].

(** [Q_State]: the game state together with its key, computed once by the
    constructor. *)
Record Q_State : Type := mkQ_State {
  raw : State;
  key : string
}.

Definition Q_State_init (s : State) : Q_State :=
  {| raw := s; key := _compute_key s |}.

Definition reward (qs : Q_State) : float :=
  if at_goal (raw qs) then score (raw qs)
  else if is_done (raw qs) then Num.minus_ten
  else Num.zero.

(** ** The agent *)

(** Content of the Q-table file at [self.path]: absent, present but not
    valid JSON, or the image of a table.  Two things are outside the model.
    Writing always succeeds: an [OSError] from [open(self.path, 'w')] (a
    missing directory, a read-only file) is not represented, and [exn] has
    no constructor for it.  The rows of an image hold floats: a JSON
    integer is read by its float value, which is exact up to 2^53; larger
    integers, on which Python's mixed arithmetic raises [OverflowError],
    and values that are not numbers are not represented. *)
Inductive FileImage : Type :=
| Missing
| Malformed
| Image (t : gmap string (list float)).

Record Agent : Type := mkAgent {
  train : option string;
  q : gmap string (list float);
  disk : FileImage;
  alpha : float;
  gamma : float;
  epsilon : float;
  prevState : option Q_State;
  prevAction : option Action
}.

(** The outcome of the calls into [random] made during one tick:
    [random.randrange(0, 100)] and [random.choice(State.ACTIONS)]. *)
Record Draw : Type := mkDraw {
  randrange : Z;
  choice : Action
}.

Definition set_q (t : gmap string (list float)) (a : Agent) : Agent :=
  mkAgent (train a) t (disk a) (alpha a) (gamma a) (epsilon a)
          (prevState a) (prevAction a).

Definition set_prev (s : Q_State) (act : Action) (a : Agent) : Agent :=
  mkAgent (train a) (q a) (disk a) (alpha a) (gamma a) (epsilon a)
          (Some s) (Some act).

(** Truthiness of [self.train]: [None] and the empty string are falsy. *)
Definition truthy (t : option string) : bool :=
  match t with
  | Some s => if decide (s = "") then false else true
  | None => false
  end.

Definition load (a : Agent) : result Agent :=
  match disk a with
  | Image t => Ok (set_q t a)
  | Malformed => Raise JSONDecodeError
  | Missing => if truthy (train a) then Ok a else Raise FileDoesNotExist
  end.

Definition save (a : Agent) : Agent :=
  mkAgent (train a) (q a) (Image (q a)) (alpha a) (gamma a) (epsilon a)
          (prevState a) (prevAction a).

(** [Agent.__init__], run against the file content [f].  The learning
    parameters and the previous transition are assigned after [load]
    returns; [load] does not read them. *)
Definition Agent_init (tr : option string) (f : FileImage) : result Agent :=
  do a <- load (mkAgent tr ∅ f Num.zero Num.zero Num.zero None None);
  Ok (mkAgent (train a) (q a) (disk a) 0.1%float 0.6%float Num.zero None None).

Definition addNewStateToQTable (a : Agent) (stateKey : string) : Agent :=
  save (set_q (<[stateKey := [Num.zero; Num.zero; Num.zero; Num.zero; Num.zero]]> (q a)) a).

(** [actionToIndex]: falls off the end (returning [None]) for anything that
    is not one of the five action strings, in particular for [None]. *)
Definition actionToIndex (actionString : option Action) : option nat :=
  match actionString with
  | Some u => Some 0%nat
  | Some d => Some 1%nat
  | Some l => Some 2%nat
  | Some r => Some 3%nat
  | Some stay => Some 4%nat
  | None => None
  end.

(** Python's [max] over a list: the first item is the candidate and a later
    item replaces it only when it compares strictly greater.  The position
    of the returned item is kept along with its value, because
    [list.index] recognises an item by identity before trying [==]. *)
Fixpoint max_from (best : nat * float) (i : nat) (xs : list float) : nat * float :=
  match xs with
  | [] => best
  | x :: rest =>
      max_from (if Num.flt (snd best) x then (i, x) else best) (S i) rest
  end.

Definition py_max (xs : list float) : result (nat * float) :=
  match xs with
  | [] => Raise ValueError
  | x :: rest => Ok (max_from (0%nat, x) 1%nat rest)
  end.

(** [xs.index(m)] where [m] is the item of [xs] at position [p]. *)
Fixpoint index_from (i : nat) (xs : list float) (p : nat) (m : float) : result nat :=
  match xs with
  | [] => Raise ValueError
  | x :: rest =>
      if Nat.eqb i p || Num.feq x m then Ok i
      else index_from (S i) rest p m
  end.

Definition py_index (xs : list float) (pm : nat * float) : result nat :=
  index_from 0%nat xs (fst pm) (snd pm).

Definition pickBestAction (a : Agent) (stateKey : string) : result Action :=
  do actionValues <- of_option KeyError (q a !! stateKey);
  do m <- py_max actionValues;
  do i <- py_index actionValues m;
  of_option IndexError (ACTIONS !! i).

Definition pickRandomAction (dr : Draw) : Action := choice dr.

Definition findBestAction (a : Agent) (stateKey : string) (dr : Draw) : result Action :=
  if Num.fle (Num.of_int (randrange dr)) (Num.fmul (epsilon a) Num.hundred)
  then Ok (pickRandomAction dr)
  else pickBestAction a stateKey.

(** The value written by line 180 of the source. *)
Definition newQValue (al ga old R maxOfCurrActions : float) : float :=
  Num.fadd (Num.fmul (Num.fsub Num.one al) old)
           (Num.fmul al (Num.fadd R (Num.fmul ga maxOfCurrActions))).

(** [updateQTable].  The parameters [prevStateKey] and [prevStateAction] are
    shadowed or ignored by the body, which reads [self.prevState] and
    [self.prevAction]; [currStateAction] is unused. *)
Definition updateQTable (a : Agent) (currStateKey : string) (currStateAction : Action)
    (prevStateKey_arg : string) (prevStateAction_arg : option Action) (R : float)
    : result Agent :=
  let prevActionIndex := actionToIndex (prevAction a) in
  do ps <- of_option AttributeError (prevState a);
  let prevStateKey := key ps in
  do cur <- of_option KeyError (q a !! currStateKey);
  do m <- py_max cur;
  let maxOfCurrActions := snd m in
  do row <- of_option KeyError (q a !! prevStateKey);
  do idx <- of_option TypeError prevActionIndex;
  do old <- of_option IndexError (row !! idx);
  let v := newQValue (alpha a) (gamma a) old R maxOfCurrActions in
  Ok (save (set_q (<[prevStateKey := <[idx := v]> row]> (q a)) a)).

Definition qLearning (a : Agent) (state : State) (dr : Draw) : result (Action * Agent) :=
  let currQState := Q_State_init state in
  let currStateKey := key currQState in
  if decide (is_Some (q a !! currStateKey)) then
    do action <- findBestAction a currStateKey dr;
    let sPrime := currStateKey in
    let R := reward currQState in
    do ps <- of_option AttributeError (prevState a);
    let prevStateKey := key ps in
    let prevStateAction := prevAction a in
    do a' <- updateQTable a sPrime action prevStateKey prevStateAction R;
    Ok (action, a')
  else Raise UnboundLocalError.

(** Lines 129-130 of [choose_action]: insert the zero vector for a key that
    is not in the table yet. *)
Definition init_if_absent (a : Agent) (currStateKey : string) : Agent :=
  if decide (is_Some (q a !! currStateKey)) then a
  else addNewStateToQTable a currStateKey.

Definition choose_action (a : Agent) (state : State) (dr : Draw) : result (Action * Agent) :=
  let currQState := Q_State_init state in
  let currStateKey := key currQState in
  let a1 := init_if_absent a currStateKey in
  match prevState a1 with
  | None =>
      do bestAction <- findBestAction a1 currStateKey dr;
      Ok (bestAction, set_prev currQState bestAction a1)
  | Some _ =>
      do res <- qLearning a1 state dr;
      let bestAction := fst res in
      Ok (bestAction, set_prev currQState bestAction (snd res))
  end.

(** ** Concrete inputs used by the examples *)

Module Examples.

Definition zeros : list float :=
  [Num.zero; Num.zero; Num.zero; Num.zero; Num.zero].

(** An empty board with the frog at (3, 3). *)
Definition empty_board : Z -> Z -> option string := fun _ _ => None.

(** A board with a car far from the frog and an empty-string cell. *)
Definition far_car : Z -> Z -> option string :=
  fun x y =>
    if decide (x = 40 /\ y = 40) then Some "C"
    else if decide (x = 5 /\ y = 4) then Some ""
    else None.

Definition s_plain : State := mkState 3 3 empty_board false false Num.zero.
Definition s_dead : State := mkState 3 3 empty_board false true Num.zero.
Definition s_goal_done : State := mkState 3 3 empty_board true true 7%float.
Definition s_other : State := mkState 5 5 far_car true false 42%float.

Definition k_blank : string := "____________________".
Definition k_next : string := "next".

(** An agent in its second tick: the previous state had the blank key
    and the previous action was [u]. *)
Definition a_second : Agent :=
  mkAgent None {[ k_blank := zeros ]} (Image {[ k_blank := zeros ]})
          0.1%float 0.6%float Num.zero
          (Some (Q_State_init s_plain)) (Some u).

(** An agent whose table prefers [d] at the blank key. *)
Definition a_prefers_d : Agent :=
  mkAgent None {[ k_blank := [Num.zero; Num.one; Num.zero; Num.zero; Num.zero] ]}
          Missing 0.1%float 0.6%float Num.zero None None.

(** An agent whose previous key differs from the key it arrives at. *)
Definition a_two_keys : Agent :=
  mkAgent (Some "run1")
          (<[ k_next := [Num.zero; 2%float; Num.zero; Num.zero; Num.zero] ]>
             {[ k_blank := [Num.one; Num.zero; Num.zero; Num.zero; Num.zero] ]})
          Missing 0.1%float 0.6%float Num.zero
          (Some (Q_State_init s_plain)) (Some l).

(** An agent whose row at the blank key has its maximum at three
    positions. *)
Definition tied_row : list float :=
  [Num.zero; Num.one; Num.one; Num.zero; Num.one].

Definition a_tie : Agent :=
  mkAgent None {[ k_blank := tied_row ]} Missing
          0.1%float 0.6%float Num.zero None None.

Definition a_fresh : Agent :=
  mkAgent (Some "run1") ∅ Missing 0.1%float 0.6%float Num.zero None None.

End Examples.

(** The value of [Q(s,a)] after [n] applications of the update with
    [R = 10], [maxNext = 0] and the default parameters, starting from 0. *)
Definition td_iter (n : nat) : float :=
  Nat.iter n (fun v => newQValue 0.1%float 0.6%float v Num.ten Num.zero) Num.zero.

(** Number of applications after which [td_iter] stops moving. *)
Definition td_stall : nat := 328.

(** [n] successive calls of [updateQTable] with the same arrival key and
    reward, the agent's previous state and action staying as they are. *)
Fixpoint repeat_update (n : nat) (a : Agent) (currStateKey : string)
    (currStateAction : Action) (R : float) : result Agent :=
  match n with
  | O => Ok a
  | S k =>
      do a' <- repeat_update k a currStateKey currStateAction R;
      do ps <- of_option AttributeError (prevState a');
      updateQTable a' currStateKey currStateAction (key ps) (prevAction a') R
  end.

(** A freshly constructed agent's parameters, a table of two keys whose
    entry for ([k_blank], [u]) is [v], and ([k_blank], [u]) as the previous
    transition. *)
Definition td_table (v : float) : gmap string (list float) :=
  <[ Examples.k_blank := [v; Num.zero; Num.zero; Num.zero; Num.zero] ]>
    {[ Examples.k_next := Examples.zeros ]}.

Definition td_agent (v : float) : Agent :=
  mkAgent (Some "run1") (td_table v) (Image (td_table v))
          0.1%float 0.6%float Num.zero
          (Some (Q_State_init Examples.s_plain)) (Some u).

(** ** The order Python compares floats by

    Comparison of binary64 values is specified through [SFcompare].  Every
    value but NaN is given a rank in [Z * Z * Z], ordered
    lexicographically, so that comparing two floats is comparing their
    ranks; NaN has no rank and compares false with everything. *)

Definition rank (f : spec_float) : option (Z * Z * Z) :=
  match f with
  | S754_nan => None
  | S754_infinity true => Some (-2, 0, 0)
  | S754_infinity false => Some (2, 0, 0)
  | S754_zero _ => Some (0, 0, 0)
  | S754_finite true m e => Some (-1, - e, Z.neg m)
  | S754_finite false m e => Some (1, e, Z.pos m)
  end.

Definition frank (x : float) : option (Z * Z * Z) := rank (Prim2SF x).

Definition lex_compare (a b : Z * Z * Z) : comparison :=
  match fst (fst a) ?= fst (fst b) with
  | Eq =>
      match snd (fst a) ?= snd (fst b) with
      | Eq => snd a ?= snd b
      | c => c
      end
  | c => c
  end.

Definition lex_lt (a b : Z * Z * Z) : Prop :=
  fst (fst a) < fst (fst b) \/
  (fst (fst a) = fst (fst b) /\
   (snd (fst a) < snd (fst b) \/
    (snd (fst a) = snd (fst b) /\ snd a < snd b))).

(** Position [i] of [v] holds a maximal entry: every entry of [v] is [<=]
    it, by Python's comparison of floats. *)
Definition is_max_index (v : list float) (i : nat) : Prop :=
  exists top, v !! i = Some top /\
    forall j x, v !! j = Some x -> Num.fle x top = true.

(** ** Several ticks

    The game calls [choose_action] once per tick on the same agent; [run]
    feeds it the successive states (and the draws of each tick) and
    collects the actions. *)
Fixpoint run (a : Agent) (ticks : list (State * Draw)) : result (list Action * Agent) :=
  match ticks with
  | [] => Ok ([], a)
  | tick :: rest =>
      do res <- choose_action a (fst tick) (snd tick);
      do more <- run (snd res) rest;
      Ok (fst res :: fst more, snd more)
  end.

(** Every row of the table has one entry per action. *)
Definition rows_have_five (t : gmap string (list float)) : Prop :=
  forall k row, t !! k = Some row -> length row = 5%nat.

(** The previous transition, when there is one, names a key of the table
    and an action. *)
Definition prev_recorded (a : Agent) : Prop :=
  match prevState a with
  | None => True
  | Some ps => is_Some (q a !! key ps) /\ is_Some (prevAction a)
  end.

Definition well_formed (a : Agent) : Prop :=
  rows_have_five (q a) /\ prev_recorded a.

(** The file holds the table, or nothing was learnt yet. *)
Definition file_in_step (a : Agent) : Prop :=
  disk a = Image (q a) \/ q a = ∅.

(** Entry [j] of the row at key [k], when both exist. *)
Definition entry (t : gmap string (list float)) (k : string) (j : nat) : option float :=
  match t !! k with
  | Some row => row !! j
  | None => None
  end.

(** Every cell of the board holds at most one character. *)
Definition single_symbols (s : State) : Prop :=
  forall x y c, get s x y = Some c -> (String.length c <= 1)%nat.

(** A tick on which nothing happens: the state is neither the goal nor a
    loss, and the draw is not the one that explores at [epsilon = 0]. *)
Definition quiet (tick : State * Draw) : Prop :=
  at_goal (fst tick) = false /\ is_done (fst tick) = false /\
  1 <= randrange (snd tick) <= 99.

(** A goal state with a car in the cell ahead of the frog; its key is not
    the blank one. *)
Definition car_ahead : Z -> Z -> option string :=
  fun x y => if decide (x = 3 /\ y = 2) then Some "C" else None.

Definition s_car_goal : State := mkState 3 3 car_ahead true false 42%float.

(** An agent that has learnt nothing: the parameters are those set by the
    constructor and every row of the table is the zero vector. *)
Definition untrained (a : Agent) : Prop :=
  alpha a = 0.1%float /\ gamma a = 0.6%float /\ epsilon a = 0%float /\
  (forall k row, q a !! k = Some row -> row = Examples.zeros) /\
  prev_recorded a.

(** * Properties *)

(** ** Results never confuse [Ok] and [Raise] *)

Lemma bind_ok {A B : Type} (m : result A) (k : A -> result B) (b : B) :
  bind m k = Ok b -> exists a, m = Ok a /\ k a = Ok b.
Proof. destruct m as [a|e]; simpl; [eauto | discriminate]. Qed.

Lemma bind_raise {A B : Type} (m : result A) (k : A -> result B) (e : exn) :
  bind m k = Raise e -> m = Raise e \/ exists a, m = Ok a /\ k a = Raise e.
Proof. destruct m as [a|e']; simpl; [eauto | intros [= ->]; auto]. Qed.

Lemma of_option_ok {A : Type} (e : exn) (o : option A) (a : A) :
  of_option e o = Ok a -> o = Some a.
Proof. destruct o; simpl; congruence. Qed.

Lemma of_option_raise {A : Type} (e e' : exn) (o : option A) :
  of_option e o = Raise e' -> e' = e /\ o = None.
Proof. destruct o; simpl; [discriminate | intros [= ->]; auto]. Qed.

(** ** Reward (C4) *)

(** C4. [reward] returns the state's score whenever [at_goal] holds, also
    when [is_done] holds too; [-10] when [is_done] holds and [at_goal] does
    not; and [0] in every other case. *)
Theorem reward_cases (qs : Q_State) :
  (at_goal (raw qs) = true -> reward qs = score (raw qs)) /\
  (at_goal (raw qs) = false -> is_done (raw qs) = true ->
     reward qs = (-10)%float) /\
  (at_goal (raw qs) = false -> is_done (raw qs) = false ->
     reward qs = 0%float).
Proof.
  unfold reward.
  destruct (at_goal (raw qs)), (is_done (raw qs));
    repeat split; intros; try discriminate; reflexivity.
Qed.

Lemma reward_cases_witness :
  is_done (raw (Q_State_init Examples.s_goal_done)) = true /\
  reward (Q_State_init Examples.s_goal_done) = 7%float /\
  reward (Q_State_init Examples.s_dead) = (-10)%float /\
  reward (Q_State_init Examples.s_plain) = 0%float.
Proof.
  split; [reflexivity |].
  split; [apply (proj1 (reward_cases (Q_State_init Examples.s_goal_done))); reflexivity |].
  split.
  - apply (proj1 (proj2 (reward_cases (Q_State_init Examples.s_dead)))); reflexivity.
  - apply (proj2 (proj2 (reward_cases (Q_State_init Examples.s_plain)))); reflexivity.
Defined.

(** ** Lazy initialisation (C5) *)

Lemma save_q (a : Agent) : q (save a) = q a.
Proof. reflexivity. Qed.

Lemma save_disk (a : Agent) : disk (save a) = Image (q a).
Proof. reflexivity. Qed.

Lemma init_if_absent_new (a : Agent) (k : string) :
  q a !! k = None -> init_if_absent a k = addNewStateToQTable a k.
Proof.
  unfold init_if_absent. intros Hnone.
  destruct (decide (is_Some (q a !! k))) as [[v Hv]|_]; [congruence | reflexivity].
Qed.

Lemma init_if_absent_old (a : Agent) (k : string) :
  is_Some (q a !! k) -> init_if_absent a k = a.
Proof.
  unfold init_if_absent. intros Hsome.
  destruct (decide (is_Some (q a !! k))); [reflexivity | contradiction].
Qed.

(** C5. For a key that is not in the table, the initialisation step of
    [choose_action] stores the vector of five zeros under it and writes the
    table to the file, every other key keeping its vector; for a key that
    is in the table the agent (table and file) is left as it was. *)
Theorem init_if_absent_spec (a : Agent) (k : string) :
  (q a !! k = None ->
     q (init_if_absent a k) !! k = Some [0%float; 0%float; 0%float; 0%float; 0%float] /\
     disk (init_if_absent a k) = Image (q (init_if_absent a k)) /\
     forall k', k' <> k -> q (init_if_absent a k) !! k' = q a !! k') /\
  (is_Some (q a !! k) -> init_if_absent a k = a).
Proof.
  split.
  - intros Hnone. rewrite (init_if_absent_new a k Hnone).
    unfold addNewStateToQTable. rewrite save_q, save_disk. simpl.
    split; [apply lookup_insert_eq |]. split; [reflexivity |].
    intros k' Hk'. apply lookup_insert_ne. congruence.
  - apply init_if_absent_old.
Qed.

Lemma init_if_absent_spec_witness :
  q (init_if_absent Examples.a_fresh Examples.k_blank) !! Examples.k_blank
    = Some [0%float; 0%float; 0%float; 0%float; 0%float] /\
  init_if_absent Examples.a_second Examples.k_blank = Examples.a_second.
Proof.
  split.
  - apply (proj1 (init_if_absent_spec Examples.a_fresh Examples.k_blank)).
    reflexivity.
  - apply (proj2 (init_if_absent_spec Examples.a_second Examples.k_blank)).
    exists Examples.zeros. reflexivity.
Defined.

(** ** Loading the table (C7) *)

Lemma load_missing (a : Agent) :
  disk a = Missing ->
  load a = if truthy (train a) then Ok a else Raise FileDoesNotExist.
Proof. unfold load. intros ->. reflexivity. Qed.

Lemma load_image (a : Agent) (t : gmap string (list float)) :
  disk a = Image t -> load a = Ok (set_q t a).
Proof. unfold load. intros ->. reflexivity. Qed.

(** C7.  With the file missing, constructing the agent raises when no
    training identifier was given, and succeeds with an empty table (the
    file still missing) when one was given; with the file present, the
    loaded mapping becomes the table in both modes.  A training identifier
    is a non-empty string: [train or 'q'] and [if self.train] take the
    empty string for no identifier, so it raises like [None]. *)
Theorem load_missing_or_present (tr : option string) :
  (tr = None \/ tr = Some "" -> Agent_init tr Missing = Raise FileDoesNotExist) /\
  (forall name, tr = Some name -> name <> "" ->
     exists a, Agent_init tr Missing = Ok a /\ q a = ∅ /\ disk a = Missing /\
               train a = tr) /\
  (forall t, exists a, Agent_init tr (Image t) = Ok a /\ q a = t).
Proof.
  unfold Agent_init. repeat split.
  - intros [-> | ->]; reflexivity.
  - intros name -> Hne. rewrite load_missing by reflexivity. simpl.
    destruct (decide (name = "")) as [E|_]; [contradiction |].
    simpl. eexists. repeat split; reflexivity.
  - intros t. rewrite (load_image _ t) by reflexivity. simpl.
    eexists. split; reflexivity.
Qed.

Lemma load_missing_or_present_witness :
  Agent_init None Missing = Raise FileDoesNotExist /\
  (exists a, Agent_init (Some "run1") Missing = Ok a /\ q a = ∅ /\
             disk a = Missing /\ train a = Some "run1").
Proof.
  split.
  - apply (proj1 (load_missing_or_present None)). left. reflexivity.
  - apply (proj1 (proj2 (load_missing_or_present (Some "run1"))) "run1");
      [reflexivity | discriminate].
Defined.

(** ** The update writes one entry (C8) *)

Lemma py_max_nonempty (xs : list float) :
  xs <> [] -> exists m, py_max xs = Ok m.
Proof. destruct xs; [contradiction | simpl; eauto]. Qed.

Section Update.

Variables (a : Agent) (ps : Q_State) (pa : Action).
Variables (row cur : list float) (idx : nat) (old : float).
Variables (currStateKey : string) (currStateAction : Action).
Variables (prevStateKey_arg : string) (prevStateAction_arg : option Action).
Variable R : float.

Hypothesis Hprev : prevState a = Some ps.
Hypothesis Hact : prevAction a = Some pa.
Hypothesis Hidx : actionToIndex (Some pa) = Some idx.
Hypothesis Hrow : q a !! key ps = Some row.
Hypothesis Hold : row !! idx = Some old.
Hypothesis Hcur : q a !! currStateKey = Some cur.
Hypothesis Hne : cur <> [].

(** Under the conditions above the update returns, and the agent it
    returns is the old one with entry [idx] of the row at the previous
    key replaced and the file rewritten. *)
Lemma updateQTable_ok :
  exists m, py_max cur = Ok m /\
    updateQTable a currStateKey currStateAction prevStateKey_arg
                 prevStateAction_arg R
    = Ok (save (set_q (<[key ps :=
                <[idx := newQValue (alpha a) (gamma a) old R (snd m)]> row]> (q a)) a)).
Proof using Hprev Hact Hidx Hrow Hold Hcur Hne.
  destruct (py_max_nonempty cur Hne) as [m Hm]. exists m. split; [exact Hm |].
  unfold updateQTable. rewrite Hprev, Hact, Hidx. simpl.
  rewrite Hcur. simpl. rewrite Hm. simpl. rewrite Hrow. simpl.
  rewrite Hold. reflexivity.
Qed.

End Update.

Lemma actionToIndex_some (pa : Action) :
  exists idx, actionToIndex (Some pa) = Some idx /\ (idx < 5)%nat.
Proof. destruct pa; simpl; eexists; (split; [reflexivity | lia]). Qed.

(** C8. When the update applies (a prior transition is recorded, its key
    has a row long enough for the prior action's index, and the current key
    has a non-empty row), it returns an agent in which every key other than
    the prior key maps to its previous vector, the vector at the prior key
    has its previous length and its previous entries everywhere but at the
    prior action's index, and the file holds the table just written. *)
Theorem updateQTable_frame (a : Agent) (ps : Q_State) (pa : Action)
    (row cur : list float) (idx : nat)
    (currStateKey : string) (currStateAction : Action)
    (prevStateKey_arg : string) (prevStateAction_arg : option Action) (R : float) :
  prevState a = Some ps ->
  prevAction a = Some pa ->
  actionToIndex (Some pa) = Some idx ->
  q a !! key ps = Some row ->
  (idx < length row)%nat ->
  q a !! currStateKey = Some cur ->
  cur <> [] ->
  exists a' row',
    updateQTable a currStateKey currStateAction prevStateKey_arg
                 prevStateAction_arg R = Ok a' /\
    q a' !! key ps = Some row' /\
    length row' = length row /\
    (forall j, j <> idx -> row' !! j = row !! j) /\
    (forall k, k <> key ps -> q a' !! k = q a !! k) /\
    disk a' = Image (q a').
Proof.
  intros Hprev Hact Hidx Hrow Hlen Hcur Hne.
  destruct (lookup_lt_is_Some_2 row idx Hlen) as [old Hold].
  destruct (updateQTable_ok a ps pa row cur idx old currStateKey currStateAction
              prevStateKey_arg prevStateAction_arg R
              Hprev Hact Hidx Hrow Hold Hcur Hne) as (m & _ & Hup).
  eexists. eexists. split; [exact Hup |].
  rewrite save_q, save_disk. simpl.
  split; [apply lookup_insert_eq |].
  split; [apply length_insert |].
  split; [intros j Hj; apply list_lookup_insert_ne; congruence |].
  split; [intros k Hk; apply lookup_insert_ne; congruence | reflexivity].
Qed.

Lemma updateQTable_frame_witness :
  exists a' row',
    updateQTable Examples.a_two_keys Examples.k_next d Examples.k_blank
                 (Some l) Num.ten = Ok a' /\
    q a' !! Examples.k_blank = Some row' /\
    length row' = 5%nat /\
    (forall j, j <> 2%nat ->
       row' !! j = [Num.one; Num.zero; Num.zero; Num.zero; Num.zero] !! j) /\
    (forall k, k <> Examples.k_blank -> q a' !! k = q Examples.a_two_keys !! k) /\
    disk a' = Image (q a').
Proof.
  apply (updateQTable_frame Examples.a_two_keys (Q_State_init Examples.s_plain) l
           [Num.one; Num.zero; Num.zero; Num.zero; Num.zero]
           [Num.zero; 2%float; Num.zero; Num.zero; Num.zero] 2
           Examples.k_next d Examples.k_blank (Some l) Num.ten);
    try reflexivity; [simpl; lia | discriminate].
Defined.

(** ** Key encoding (C9) *)

(** C9. If two raw states show the same symbol (['_'] standing for an absent
    cell) at each of the 20 offsets of the window (columns -2..2, rows
    -2..1 around the frog), they get the same key, whatever else differs
    between them. *)
Theorem compute_key_window (s1 s2 : State) :
  (forall dx dy, -2 <= dx <= 2 -> -2 <= dy <= 1 ->
     or_underscore (get s1 (frog_x s1 + dx) (frog_y s1 + dy)) =
     or_underscore (get s2 (frog_x s2 + dx) (frog_y s2 + dy))) ->
  _compute_key s1 = _compute_key s2.
Proof.
  intros H.
  assert (cell : forall dx dy, -2 <= dx <= 2 -> -2 <= dy <= 1 ->
            forall x1 y1 x2 y2,
              x1 = frog_x s1 + dx -> y1 = frog_y s1 + dy ->
              x2 = frog_x s2 + dx -> y2 = frog_y s2 + dy ->
              or_underscore (get s1 x1 y1) = or_underscore (get s2 x2 y2)).
  { intros dx dy Hx Hy x1 y1 x2 y2 -> -> -> ->. apply H; assumption. }
  unfold _compute_key.
  rewrite (cell (-2) (-1)) with (x2 := frog_x s2 - 2) (y2 := frog_y s2 - 1) by lia.
  rewrite (cell (-1) (-1)) with (x2 := frog_x s2 - 1) (y2 := frog_y s2 - 1) by lia.
  rewrite (cell 0 (-1)) with (x2 := frog_x s2) (y2 := frog_y s2 - 1) by lia.
  rewrite (cell 1 (-1)) with (x2 := frog_x s2 + 1) (y2 := frog_y s2 - 1) by lia.
  rewrite (cell 2 (-1)) with (x2 := frog_x s2 + 2) (y2 := frog_y s2 - 1) by lia.
  rewrite (cell (-2) (-2)) with (x2 := frog_x s2 - 2) (y2 := frog_y s2 - 2) by lia.
  rewrite (cell (-1) (-2)) with (x2 := frog_x s2 - 1) (y2 := frog_y s2 - 2) by lia.
  rewrite (cell 0 (-2)) with (x2 := frog_x s2) (y2 := frog_y s2 - 2) by lia.
  rewrite (cell 1 (-2)) with (x2 := frog_x s2 + 1) (y2 := frog_y s2 - 2) by lia.
  rewrite (cell 2 (-2)) with (x2 := frog_x s2 + 2) (y2 := frog_y s2 - 2) by lia.
  rewrite (cell (-2) 0) with (x2 := frog_x s2 - 2) (y2 := frog_y s2) by lia.
  rewrite (cell (-1) 0) with (x2 := frog_x s2 - 1) (y2 := frog_y s2) by lia.
  rewrite (cell 0 0) with (x2 := frog_x s2) (y2 := frog_y s2) by lia.
  rewrite (cell 1 0) with (x2 := frog_x s2 + 1) (y2 := frog_y s2) by lia.
  rewrite (cell 2 0) with (x2 := frog_x s2 + 2) (y2 := frog_y s2) by lia.
  rewrite (cell (-2) 1) with (x2 := frog_x s2 - 2) (y2 := frog_y s2 + 1) by lia.
  rewrite (cell (-1) 1) with (x2 := frog_x s2 - 1) (y2 := frog_y s2 + 1) by lia.
  rewrite (cell 0 1) with (x2 := frog_x s2) (y2 := frog_y s2 + 1) by lia.
  rewrite (cell 1 1) with (x2 := frog_x s2 + 1) (y2 := frog_y s2 + 1) by lia.
  rewrite (cell 2 1) with (x2 := frog_x s2 + 2) (y2 := frog_y s2 + 1) by lia.
  reflexivity.
Qed.

Lemma compute_key_window_witness :
  score Examples.s_plain <> score Examples.s_other /\
  get Examples.s_plain 40 40 <> get Examples.s_other 40 40 /\
  _compute_key Examples.s_plain = _compute_key Examples.s_other.
Proof.
  split; [discriminate |]. split; [discriminate |].
  apply (compute_key_window Examples.s_plain Examples.s_other).
  intros dx dy Hx Hy.
  assert (Ex : dx = -2 \/ dx = -1 \/ dx = 0 \/ dx = 1 \/ dx = 2) by lia.
  assert (Ey : dy = -2 \/ dy = -1 \/ dy = 0 \/ dy = 1) by lia.
  destruct Ex as [-> | [-> | [-> | [-> | ->]]]];
    destruct Ey as [-> | [-> | [-> | ->]]]; reflexivity.
Defined.

(** ** No unassigned return from [qLearning] (C10) *)

Lemma index_from_raise (xs : list float) (i p : nat) (m : float) (e : exn) :
  index_from i xs p m = Raise e -> e = ValueError.
Proof.
  revert i. induction xs as [|x rest IH]; simpl; intros i.
  - intros [= <-]. reflexivity.
  - destruct (Nat.eqb i p || Num.feq x m); [discriminate | apply IH].
Qed.

Lemma py_max_raise (xs : list float) (e : exn) :
  py_max xs = Raise e -> e = ValueError.
Proof. destruct xs; simpl; [intros [= <-]; reflexivity | discriminate]. Qed.

Lemma pickBestAction_raise (a : Agent) (k : string) (e : exn) :
  pickBestAction a k = Raise e -> e <> UnboundLocalError.
Proof.
  unfold pickBestAction. intros H.
  apply bind_raise in H as [H | (v & _ & H)];
    [apply of_option_raise in H as [-> _]; discriminate |].
  apply bind_raise in H as [H | (m & _ & H)];
    [apply py_max_raise in H as ->; discriminate |].
  apply bind_raise in H as [H | (i & _ & H)];
    [apply index_from_raise in H as ->; discriminate |].
  apply of_option_raise in H as [-> _]. discriminate.
Qed.

Lemma findBestAction_raise (a : Agent) (k : string) (dr : Draw) (e : exn) :
  findBestAction a k dr = Raise e -> e <> UnboundLocalError.
Proof.
  unfold findBestAction.
  destruct (Num.fle _ _); [discriminate | apply pickBestAction_raise].
Qed.

Lemma updateQTable_raise (a : Agent) (ck : string) (ca : Action) (pk : string)
    (pa : option Action) (R : float) (e : exn) :
  updateQTable a ck ca pk pa R = Raise e -> e <> UnboundLocalError.
Proof.
  unfold updateQTable. intros H.
  apply bind_raise in H as [H | (ps & _ & H)];
    [apply of_option_raise in H as [-> _]; discriminate |].
  apply bind_raise in H as [H | (cur & _ & H)];
    [apply of_option_raise in H as [-> _]; discriminate |].
  apply bind_raise in H as [H | (m & _ & H)];
    [apply py_max_raise in H as ->; discriminate |].
  apply bind_raise in H as [H | (row & _ & H)];
    [apply of_option_raise in H as [-> _]; discriminate |].
  apply bind_raise in H as [H | (idx & _ & H)];
    [apply of_option_raise in H as [-> _]; discriminate |].
  apply bind_raise in H as [H | (old & _ & H)];
    [apply of_option_raise in H as [-> _]; discriminate | discriminate].
Qed.

Lemma qLearning_unbound (a : Agent) (s : State) (dr : Draw) :
  qLearning a s dr = Raise UnboundLocalError <->
  q a !! key (Q_State_init s) = None.
Proof.
  unfold qLearning.
  destruct (decide (is_Some (q a !! key (Q_State_init s)))) as [Hin | Hout].
  - split.
    + intros H. exfalso.
      apply bind_raise in H as [H | (act & _ & H)];
        [exact (findBestAction_raise _ _ _ _ H eq_refl) |].
      apply bind_raise in H as [H | (ps & _ & H)];
        [apply of_option_raise in H as [E _]; discriminate |].
      apply bind_raise in H as [H | (a' & _ & H)];
        [exact (updateQTable_raise _ _ _ _ _ _ _ H eq_refl) | discriminate].
    + intros Hnone. rewrite Hnone in Hin. destruct Hin; discriminate.
  - split; [intros _ | reflexivity].
    destruct (q a !! key (Q_State_init s)) eqn:E; [| reflexivity].
    exfalso. apply Hout. eauto.
Qed.

Lemma init_if_absent_present (a : Agent) (k : string) :
  is_Some (q (init_if_absent a k) !! k).
Proof.
  destruct (q a !! k) eqn:E.
  - rewrite init_if_absent_old by eauto. eauto.
  - rewrite (init_if_absent_new a k E). unfold addNewStateToQTable.
    rewrite save_q. simpl. rewrite lookup_insert_eq. eauto.
Qed.

(** C10. [qLearning] fails on its unassigned [action] exactly when the
    current key is not in the table; [choose_action] calls it only after
    making sure the key is there, so [choose_action] never fails that
    way. *)
Theorem choose_action_never_unbound :
  (forall a s dr, qLearning a s dr = Raise UnboundLocalError <->
                  q a !! key (Q_State_init s) = None) /\
  (forall a s dr,
     qLearning (init_if_absent a (key (Q_State_init s))) s dr
       <> Raise UnboundLocalError) /\
  (forall a s dr, choose_action a s dr <> Raise UnboundLocalError).
Proof.
  split; [exact qLearning_unbound |].
  assert (Hq : forall a s dr,
             qLearning (init_if_absent a (key (Q_State_init s))) s dr
               <> Raise UnboundLocalError).
  { intros a s dr H. apply qLearning_unbound in H.
    destruct (init_if_absent_present a (key (Q_State_init s))) as [v Hv].
    congruence. }
  split; [exact Hq |].
  intros a s dr H. unfold choose_action in H.
  destruct (prevState (init_if_absent a (key (Q_State_init s)))).
  - apply bind_raise in H as [H | (res & _ & H)];
      [exact (Hq _ _ _ H) | discriminate].
  - apply bind_raise in H as [H | (act & _ & H)];
      [exact (findBestAction_raise _ _ _ _ H eq_refl) | discriminate].
Qed.

(** ** Epsilon-greedy selection with [epsilon = 0] (C1) *)

Lemma draw_above_zero (z : Z) :
  1 <= z <= 99 ->
  Num.fle (Num.of_int z) (Num.fmul Num.zero Num.hundred) = false.
Proof.
  intros Hz.
  assert (Hall : forallb (fun n => negb (Num.fle (Num.of_int (Z.of_nat n))
                                           (Num.fmul Num.zero Num.hundred)))
                         (seq 1 99) = true) by (vm_compute; reflexivity).
  rewrite forallb_forall in Hall.
  specialize (Hall (Z.to_nat z)).
  rewrite Z2Nat.id in Hall by lia.
  apply negb_true_iff, Hall, in_seq. lia.
Qed.

(** With [epsilon = 0] every draw from 1 to 99 takes the greedy branch. *)
Lemma findBestAction_eps0_greedy (a : Agent) (k : string) (dr : Draw) :
  epsilon a = Num.zero -> 1 <= randrange dr <= 99 ->
  findBestAction a k dr = pickBestAction a k.
Proof.
  intros He Hz. unfold findBestAction.
  rewrite He, draw_above_zero by exact Hz. reflexivity.
Qed.

(** With [epsilon = 0] the draw 0 takes the exploration branch. *)
Lemma findBestAction_eps0_draw0 (a : Agent) (k : string) (act : Action) :
  epsilon a = Num.zero ->
  findBestAction a k (mkDraw 0 act) = Ok act.
Proof. intros He. unfold findBestAction. rewrite He. reflexivity. Qed.

(** C1, evaluated where it fails.  An agent constructed from a table in
    which [d] is the only maximal action at the blank key has
    [epsilon = 0]; its greedy action there is [d]; yet when
    [randrange(0, 100)] draws 0 the test [rand <= epsilon * 100] holds and
    the action returned is the one [random.choice] picked, here [r]. *)
Theorem findBestAction_eps0_explores_on_zero :
  exists a,
    Agent_init None (Image (q Examples.a_prefers_d)) = Ok a /\
    epsilon a = 0%float /\
    pickBestAction a Examples.k_blank = Ok d /\
    findBestAction a Examples.k_blank (mkDraw 0 r) = Ok r /\
    findBestAction a Examples.k_blank (mkDraw 1 r) = Ok d.
Proof. eexists. repeat split; reflexivity. Qed.

(** ** Order of selection and update in [qLearning] (C2) *)

(** C2, as amended.  When [qLearning] returns, the action it returns is the
    selection computed over the table as it was before the update, and the
    agent it returns is the result of the update applied to that same
    pre-update agent. *)
Theorem qLearning_selects_then_updates (a : Agent) (s : State) (dr : Draw)
    (act : Action) (a' : Agent) :
  qLearning a s dr = Ok (act, a') ->
  exists ps,
    prevState a = Some ps /\
    findBestAction a (key (Q_State_init s)) dr = Ok act /\
    updateQTable a (key (Q_State_init s)) act (key ps) (prevAction a)
                 (reward (Q_State_init s)) = Ok a'.
Proof.
  unfold qLearning. intros H.
  destruct (decide (is_Some (q a !! key (Q_State_init s)))); [| discriminate].
  apply bind_ok in H as (act0 & Hsel & H).
  apply bind_ok in H as (ps & Hps & H).
  apply bind_ok in H as (a0 & Hup & H).
  injection H as <- <-.
  exists ps. split; [exact (of_option_ok _ _ _ Hps) |].
  split; [exact Hsel | exact Hup].
Qed.

Lemma qLearning_selects_then_updates_witness :
  findBestAction Examples.a_second (key (Q_State_init Examples.s_dead))
                 (mkDraw 50 l) = Ok u.
Proof.
  destruct (qLearning_selects_then_updates Examples.a_second Examples.s_dead
              (mkDraw 50 l) u
              (save (set_q {[ Examples.k_blank :=
                    [(-1)%float; 0%float; 0%float; 0%float; 0%float] ]}
                 Examples.a_second))
              eq_refl) as (ps & _ & Hsel & _).
  exact Hsel.
Defined.

(** C2 as stated fails: the previous and the current key coincide, the
    frog has just died, and [qLearning] returns [u], chosen over the row of
    zeros, while the table it leaves behind has [-1] for [u] and would
    select [d]. *)
Lemma qLearning_action_not_from_updated_table :
  ~ (forall a s dr act a',
       qLearning a s dr = Ok (act, a') ->
       findBestAction a' (key (Q_State_init s)) dr = Ok act).
Proof.
  intros H.
  specialize (H Examples.a_second Examples.s_dead (mkDraw 50 l) u
                (save (set_q {[ Examples.k_blank :=
                      [(-1)%float; 0%float; 0%float; 0%float; 0%float] ]}
                   Examples.a_second))
                eq_refl).
  vm_compute in H. discriminate H.
Qed.

(** ** The update rule (C3) *)

Lemma td_iter_succ (n : nat) :
  td_iter (S n) = newQValue 0.1%float 0.6%float (td_iter n) Num.ten Num.zero.
Proof. reflexivity. Qed.

Lemma td_iter_stalls (n : nat) :
  (td_stall <= n)%nat -> td_iter n = td_iter td_stall.
Proof.
  induction 1 as [|n Hle IH]; [reflexivity |].
  rewrite td_iter_succ, IH. vm_compute. reflexivity.
Qed.

Lemma td_iter_climbs (n : nat) :
  (n < td_stall)%nat -> Num.flt (td_iter n) (td_iter (S n)) = true.
Proof.
  intros Hn.
  assert (Hall : forallb (fun i => Num.flt (td_iter i) (td_iter (S i)))
                         (seq 0 td_stall) = true) by (vm_compute; reflexivity).
  rewrite forallb_forall in Hall. apply Hall, in_seq. lia.
Qed.

Lemma td_iter_below_ten (n : nat) : Num.flt (td_iter n) Num.ten = true.
Proof.
  destruct (Nat.le_gt_cases td_stall n) as [Hge | Hlt].
  - rewrite (td_iter_stalls n Hge). vm_compute. reflexivity.
  - assert (Hall : forallb (fun i => Num.flt (td_iter i) Num.ten)
                           (seq 0 td_stall) = true) by (vm_compute; reflexivity).
    rewrite forallb_forall in Hall. apply Hall, in_seq. lia.
Qed.

Lemma td_agent_step (v : float) (ca : Action) (pk : string) (pa : option Action) :
  updateQTable (td_agent v) Examples.k_next ca pk pa Num.ten
  = Ok (td_agent (newQValue 0.1%float 0.6%float v Num.ten Num.zero)).
Proof. vm_compute. reflexivity. Qed.

(** [n] updates of the same state-action pair with [R = 10] and a zero row
    at the arrival key leave [td_iter n] in the table. *)
Lemma repeat_update_td (n : nat) (ca : Action) :
  repeat_update n (td_agent Num.zero) Examples.k_next ca Num.ten
  = Ok (td_agent (td_iter n)).
Proof.
  induction n as [|n IH]; [reflexivity |].
  simpl repeat_update. rewrite IH. simpl bind.
  rewrite td_agent_step. reflexivity.
Qed.

(** C3, as amended.  Whenever the update applies, the entry it writes is
    [(1 - alpha) * Q(s,a) + alpha * (R + gamma * max(Q(s')))], computed in
    binary64 in that order, where a freshly constructed agent has
    [alpha = 0.1] and [gamma = 0.6]; one application with [Q(s,a) = 0],
    [R = 10], [maxNext = 0] gives exactly [1.0]; and repeated application
    with the same [R] and [maxNext] leaves, after [n] updates, a value that
    is strictly increasing over the first 328 applications, does not move
    any more afterwards, and is below 10 for every [n]. *)
Theorem updateQTable_rule :
  (forall a ps pa row cur idx old ck ca pk pa' R,
     prevState a = Some ps ->
     prevAction a = Some pa ->
     actionToIndex (Some pa) = Some idx ->
     q a !! key ps = Some row ->
     row !! idx = Some old ->
     q a !! ck = Some cur ->
     cur <> [] ->
     exists m a',
       py_max cur = Ok m /\
       updateQTable a ck ca pk pa' R = Ok a' /\
       q a' !! key ps
       = Some (<[idx := ((1 - alpha a) * old
                         + alpha a * (R + gamma a * snd m))%float]> row)) /\
  (forall tr f a, Agent_init tr f = Ok a ->
     alpha a = 0.1%float /\ gamma a = 0.6%float) /\
  newQValue 0.1%float 0.6%float 0%float 10%float 0%float = 1%float /\
  (forall n ca,
     repeat_update n (td_agent 0%float) Examples.k_next ca 10%float
     = Ok (td_agent (td_iter n))) /\
  (forall n, (n < 328)%nat -> PrimFloat.ltb (td_iter n) (td_iter (S n)) = true) /\
  (forall n, (328 <= n)%nat -> td_iter (S n) = td_iter n) /\
  (forall n, PrimFloat.ltb (td_iter n) 10%float = true).
Proof.
  split.
  { intros a ps pa row cur idx old ck ca pk pa' R
           Hprev Hact Hidx Hrow Hold Hcur Hne.
    destruct (updateQTable_ok a ps pa row cur idx old ck ca pk pa' R
                Hprev Hact Hidx Hrow Hold Hcur Hne) as (m & Hm & Hup).
    exists m. eexists. split; [exact Hm |]. split; [exact Hup |].
    rewrite save_q. simpl. apply lookup_insert_eq. }
  split.
  { intros tr f a H. unfold Agent_init in H.
    apply bind_ok in H as (a0 & _ & H). injection H as <-. split; reflexivity. }
  split; [reflexivity |].
  split; [exact repeat_update_td |].
  split; [exact td_iter_climbs |].
  split; [| exact td_iter_below_ten].
  intros n Hn.
  rewrite (td_iter_stalls (S n)), (td_iter_stalls n); [reflexivity | | ];
    unfold td_stall; lia.
Qed.

Lemma updateQTable_rule_witness :
  exists a',
    updateQTable Examples.a_two_keys Examples.k_next d Examples.k_blank
                 (Some l) 10%float = Ok a' /\
    q a' !! Examples.k_blank
    = Some [1%float; 0%float; 1.1199999999999999%float; 0%float; 0%float].
Proof.
  destruct (proj1 updateQTable_rule Examples.a_two_keys
              (Q_State_init Examples.s_plain) l
              [Num.one; Num.zero; Num.zero; Num.zero; Num.zero]
              [Num.zero; 2%float; Num.zero; Num.zero; Num.zero] 2%nat Num.zero
              Examples.k_next d Examples.k_blank (Some l) 10%float
              eq_refl eq_refl eq_refl eq_refl eq_refl eq_refl
              ltac:(discriminate))
    as (m & a' & Hm & Hup & Hq).
  exists a'. split; [exact Hup |].
  injection Hm as <-. etrans; [exact Hq |]. vm_compute. reflexivity.
Defined.

(** C3 as stated fails in its last part: in binary64 the repeated update is
    not strictly increasing for ever; the 329th application returns the
    value the 328th left. *)
Lemma td_iter_not_strictly_increasing :
  ~ (forall n, PrimFloat.ltb (td_iter n) (td_iter (S n)) = true).
Proof.
  intros H. specialize (H 328%nat). vm_compute in H. discriminate H.
Qed.

(** ** Comparison of floats through ranks *)

Lemma lex_compare_spec (a b : Z * Z * Z) :
  CompareSpec (a = b) (lex_lt a b) (lex_lt b a) (lex_compare a b).
Proof.
  destruct a as [[a1 a2] a3], b as [[b1 b2] b3].
  unfold lex_compare, lex_lt. simpl.
  destruct (Z.compare_spec a1 b1) as [E1 | L1 | G1];
    [| constructor; lia | constructor; lia].
  destruct (Z.compare_spec a2 b2) as [E2 | L2 | G2];
    [| constructor; lia | constructor; lia].
  destruct (Z.compare_spec a3 b3); constructor; [congruence | lia | lia].
Qed.

Lemma lex_lt_irrefl (a : Z * Z * Z) : ~ lex_lt a a.
Proof. unfold lex_lt. lia. Qed.

Lemma lex_lt_trans (a b c : Z * Z * Z) : lex_lt a b -> lex_lt b c -> lex_lt a c.
Proof. unfold lex_lt. lia. Qed.

Lemma rank_none (f : spec_float) : rank f = None -> f = S754_nan.
Proof. destruct f as [s | s | | s m e]; try destruct s; simpl; congruence. Qed.

Lemma SFcompare_rank (f g : spec_float) (a b : Z * Z * Z) :
  rank f = Some a -> rank g = Some b ->
  SFcompare f g = Some (lex_compare a b).
Proof.
  destruct f as [sf | sf | | sf mf ef]; destruct g as [sg | sg | | sg mg eg];
    try destruct sf; try destruct sg; simpl;
    intros [= <-] [= <-]; try reflexivity;
    unfold lex_compare; simpl.
  rewrite Z.compare_opp, (Z.compare_antisym ef eg).
  destruct (ef ?= eg); reflexivity.
Qed.

Lemma SFcompare_unranked (f g : spec_float) :
  rank f = None \/ rank g = None -> SFcompare f g = None.
Proof.
  intros [H | H]; apply rank_none in H; subst; [reflexivity |].
  destruct f; reflexivity.
Qed.

Lemma compare_by_rank (x y : float) :
  SFcompare (Prim2SF x) (Prim2SF y)
  = match frank x, frank y with
    | Some a, Some b => Some (lex_compare a b)
    | _, _ => None
    end.
Proof.
  unfold frank.
  destruct (rank (Prim2SF x)) as [a|] eqn:Ex;
    [destruct (rank (Prim2SF y)) as [b|] eqn:Ey |].
  - apply SFcompare_rank; assumption.
  - apply SFcompare_unranked. auto.
  - apply SFcompare_unranked. auto.
Qed.

Lemma flt_rank (x y : float) :
  Num.flt x y = true <->
  exists a b, frank x = Some a /\ frank y = Some b /\ lex_lt a b.
Proof.
  unfold Num.flt. rewrite FloatAxioms.ltb_spec. unfold SFltb. rewrite compare_by_rank.
  destruct (frank x) as [a|], (frank y) as [b|];
    try (split; [discriminate | intros (? & ? & ? & ? & ?); discriminate]).
  destruct (lex_compare_spec a b) as [E | L | G].
  - split; [discriminate |]. intros (a' & b' & [= <-] & [= <-] & Hlt).
    subst. exfalso. exact (lex_lt_irrefl _ Hlt).
  - split; [eauto 6 | reflexivity].
  - split; [discriminate |]. intros (a' & b' & [= <-] & [= <-] & Hlt).
    exfalso. exact (lex_lt_irrefl _ (lex_lt_trans _ _ _ Hlt G)).
Qed.

Lemma fle_rank (x y : float) :
  Num.fle x y = true <->
  exists a b, frank x = Some a /\ frank y = Some b /\ (lex_lt a b \/ a = b).
Proof.
  unfold Num.fle. rewrite FloatAxioms.leb_spec. unfold SFleb. rewrite compare_by_rank.
  destruct (frank x) as [a|], (frank y) as [b|];
    try (split; [discriminate | intros (? & ? & ? & ? & ?); discriminate]).
  destruct (lex_compare_spec a b) as [E | L | G].
  - split; [eauto 8 | reflexivity].
  - split; [eauto 8 | reflexivity].
  - split; [discriminate |]. intros (a' & b' & [= <-] & [= <-] & [Hlt | ->]).
    + exfalso. exact (lex_lt_irrefl _ (lex_lt_trans _ _ _ Hlt G)).
    + exfalso. exact (lex_lt_irrefl _ G).
Qed.

Lemma feq_rank (x y : float) :
  Num.feq x y = true <->
  exists a, frank x = Some a /\ frank y = Some a.
Proof.
  unfold Num.feq. rewrite FloatAxioms.eqb_spec. unfold SFeqb. rewrite compare_by_rank.
  destruct (frank x) as [a|], (frank y) as [b|];
    try (split; [discriminate | intros (? & ? & ?); discriminate]).
  destruct (lex_compare_spec a b) as [E | L | G].
  - subst. split; [eauto | reflexivity].
  - split; [discriminate |]. intros (a' & [= <-] & [= <-]).
    exfalso. exact (lex_lt_irrefl _ L).
  - split; [discriminate |]. intros (a' & [= <-] & [= <-]).
    exfalso. exact (lex_lt_irrefl _ G).
Qed.

Lemma fle_refl (x : float) : is_Some (frank x) -> Num.fle x x = true.
Proof. intros [a Ha]. apply fle_rank. eauto 6. Qed.

Lemma fle_ranked (x y : float) :
  Num.fle x y = true -> is_Some (frank x) /\ is_Some (frank y).
Proof. intros H. apply fle_rank in H as (a & b & Ha & Hb & _). eauto. Qed.

Lemma fle_trans (x y z : float) :
  Num.fle x y = true -> Num.fle y z = true -> Num.fle x z = true.
Proof.
  intros Hxy Hyz.
  apply fle_rank in Hxy as (a & b & Ha & Hb & Hab).
  apply fle_rank in Hyz as (b' & c & Hb' & Hc & Hbc).
  assert (b' = b) as -> by congruence.
  apply fle_rank. exists a, c. split; [exact Ha |]. split; [exact Hc |].
  destruct Hab as [Hab | ->]; destruct Hbc as [Hbc | ->]; auto.
  left. exact (lex_lt_trans _ _ _ Hab Hbc).
Qed.

Lemma flt_fle (x y : float) : Num.flt x y = true -> Num.fle x y = true.
Proof.
  intros H. apply flt_rank in H as (a & b & Ha & Hb & Hab).
  apply fle_rank. eauto 8.
Qed.

Lemma not_flt_fle (x y : float) :
  is_Some (frank x) -> is_Some (frank y) ->
  Num.flt x y = false -> Num.fle y x = true.
Proof.
  intros [a Ha] [b Hb] Hnlt. apply fle_rank. exists b, a.
  split; [exact Hb |]. split; [exact Ha |].
  destruct (lex_compare_spec a b) as [E | L | G]; auto.
  exfalso. assert (Num.flt x y = true) by (apply flt_rank; eauto 6).
  congruence.
Qed.

Lemma fle_antisym (x y : float) :
  Num.fle x y = true -> Num.fle y x = true -> Num.feq x y = true.
Proof.
  intros Hxy Hyx.
  apply fle_rank in Hxy as (a & b & Ha & Hb & Hab).
  apply fle_rank in Hyx as (b' & a' & Hb' & Ha' & Hba).
  assert (b' = b) as -> by congruence.
  assert (a' = a) as -> by congruence.
  apply feq_rank. exists a. split; [exact Ha |].
  destruct Hab as [Hab | ->]; [| exact Hb].
  destruct Hba as [Hba | ->]; [| exact Hb].
  exfalso. exact (lex_lt_irrefl _ (lex_lt_trans _ _ _ Hab Hba)).
Qed.

Lemma feq_fle (x y z : float) :
  Num.feq x y = true -> Num.fle z y = true -> Num.fle z x = true.
Proof.
  intros Hxy Hzy.
  apply feq_rank in Hxy as (a & Hx & Hy).
  apply fle_rank in Hzy as (c & b & Hc & Hb & Hcb).
  assert (b = a) as -> by congruence.
  apply fle_rank. eauto 8.
Qed.

(** ** Greedy selection picks the first maximal entry (C6) *)

Lemma max_from_spec (xs : list float) :
  forall (best : nat * float) (i : nat),
    is_Some (frank (snd best)) ->
    (forall k x, xs !! k = Some x -> is_Some (frank x)) ->
    Num.fle (snd best) (snd (max_from best i xs)) = true /\
    (forall k x, xs !! k = Some x ->
       Num.fle x (snd (max_from best i xs)) = true) /\
    (max_from best i xs = best \/
     exists k, xs !! k = Some (snd (max_from best i xs)) /\
               fst (max_from best i xs) = (i + k)%nat).
Proof.
  induction xs as [|x rest IH]; intros best i Hbest Hall; simpl.
  - split; [apply fle_refl, Hbest |]. split; [| left; reflexivity].
    intros k y Hk. rewrite lookup_nil in Hk. discriminate.
  - assert (Hx : is_Some (frank x)) by exact (Hall 0%nat x eq_refl).
    assert (Hrest : forall k y, rest !! k = Some y -> is_Some (frank y))
      by (intros k y Hk; exact (Hall (S k) y Hk)).
    destruct (Num.flt (snd best) x) eqn:Hlt.
    + destruct (IH (i, x) (S i) Hx Hrest) as (Hge & Hothers & Hpos).
      simpl in Hge.
      split; [exact (fle_trans _ _ _ (flt_fle _ _ Hlt) Hge) |].
      split.
      * intros [|k] y Hk; [injection Hk as <-; exact Hge | exact (Hothers k y Hk)].
      * right. destruct Hpos as [-> | (k & Hk & Hp)].
        -- exists 0%nat. simpl. split; [reflexivity | lia].
        -- exists (S k). split; [exact Hk | rewrite Hp; lia].
    + destruct (IH best (S i) Hbest Hrest) as (Hge & Hothers & Hpos).
      split; [exact Hge |]. split.
      * intros [|k] y Hk; [| exact (Hothers k y Hk)].
        injection Hk as <-.
        exact (fle_trans _ _ _ (not_flt_fle _ _ Hbest Hx Hlt) Hge).
      * destruct Hpos as [-> | (k & Hk & Hp)]; [left; reflexivity |].
        right. exists (S k). split; [exact Hk | rewrite Hp; lia].
Qed.

Lemma index_from_first (xs : list float) (p : nat) (m : float) :
  forall (i n : nat) (x : float),
    xs !! n = Some x ->
    Nat.eqb (i + n) p || Num.feq x m = true ->
    (forall n' x', (n' < n)%nat -> xs !! n' = Some x' ->
       Nat.eqb (i + n') p || Num.feq x' m = false) ->
    index_from i xs p m = Ok (i + n)%nat.
Proof.
  induction xs as [|y rest IH]; intros i n x Hn Hhit Hmiss.
  - rewrite lookup_nil in Hn. discriminate.
  - simpl. destruct n as [|n].
    + injection Hn as ->. rewrite Nat.add_0_r in Hhit |- *.
      rewrite Hhit. reflexivity.
    + pose proof (Hmiss 0%nat y ltac:(lia) eq_refl) as H0.
      rewrite Nat.add_0_r in H0. rewrite H0.
      replace (i + S n)%nat with (S i + n)%nat by lia.
      apply (IH (S i) n x Hn).
      * replace (S i + n)%nat with (i + S n)%nat by lia. exact Hhit.
      * intros n' x' Hlt Hn'.
        replace (S i + n')%nat with (i + S n')%nat by lia.
        apply (Hmiss (S n') x'); [lia | exact Hn'].
Qed.

(** Python's [max] returns an entry of the list that every entry is [<=],
    whenever the list has a maximal entry at all. *)
Lemma py_max_is_max (v : list float) (i : nat) :
  is_max_index v i ->
  exists p m, py_max v = Ok (p, m) /\ is_max_index v p /\ v !! p = Some m.
Proof.
  intros (top & Hi & Htop).
  assert (Hranked : forall k x, v !! k = Some x -> is_Some (frank x))
    by (intros k x Hk; exact (proj1 (fle_ranked _ _ (Htop k x Hk)))).
  destruct v as [|x0 rest]; [rewrite lookup_nil in Hi; discriminate |].
  simpl py_max.
  destruct (max_from_spec rest (0%nat, x0) 1%nat
              (Hranked 0%nat x0 eq_refl)
              (fun k x Hk => Hranked (S k) x Hk)) as (Hge & Hothers & Hpos).
  destruct (max_from (0%nat, x0) 1 rest) as [p m] eqn:Hmax. simpl in *.
  assert (Hat : (x0 :: rest) !! p = Some m).
  { destruct Hpos as [[= -> ->] | (k & Hk & ->)]; [reflexivity | exact Hk]. }
  exists p, m. split; [reflexivity |]. split; [| exact Hat].
  exists m. split; [exact Hat |].
  intros [|j] x Hj; [injection Hj as <-; exact Hge | exact (Hothers j x Hj)].
Qed.

(** C6. If position [i] is the first one holding a maximal entry of the
    row stored at a key, the greedy selection returns the action at
    position [i] of the canonical order [[u, d, l, r, _]] (an action
    exists there whenever the row has at most five entries); in particular
    ties between maximal entries are resolved towards the smallest index.
    The selection reads nothing but the table, so it involves no random
    draw. *)
Theorem pickBestAction_first_max (a : Agent) (k : string) (v : list float) (i : nat) :
  q a !! k = Some v ->
  is_max_index v i ->
  (forall j, (j < i)%nat -> ~ is_max_index v j) ->
  pickBestAction a k = of_option IndexError (ACTIONS !! i) /\
  ((length v <= 5)%nat ->
   exists act, ACTIONS !! i = Some act /\ pickBestAction a k = Ok act).
Proof.
  intros Hk Hmax Hleast.
  assert (Hpick : pickBestAction a k = of_option IndexError (ACTIONS !! i)).
  { destruct (py_max_is_max v i Hmax)
      as (p & m & Hpy & (m' & Hm' & Hm'max) & Hp).
    assert (m' = m) as -> by congruence. clear Hm'.
    destruct Hmax as (top & Hi & Htop).
    assert (Heq : Num.feq top m = true)
      by exact (fle_antisym _ _ (Hm'max i top Hi) (Htop p m Hp)).
    unfold pickBestAction. rewrite Hk. simpl. rewrite Hpy. simpl.
    unfold py_index. simpl.
    rewrite (index_from_first v p m 0%nat i top Hi); [reflexivity | |].
    - rewrite Heq. apply orb_true_r.
    - intros n' x' Hlt Hn'.
      destruct (Nat.eqb (0 + n') p || Num.feq x' m) eqn:Hhit; [| reflexivity].
      exfalso. apply (Hleast n' Hlt). exists x'. split; [exact Hn' |].
      intros j x Hj. apply orb_true_iff in Hhit as [Hsame | Hsame].
      + apply Nat.eqb_eq in Hsame. simpl in Hsame. subst n'.
        assert (x' = m) as -> by congruence. exact (Hm'max j x Hj).
      + exact (feq_fle _ _ _ Hsame (Hm'max j x Hj)). }
  split; [exact Hpick |].
  intros Hlen. destruct Hmax as (top & Hi & _).
  apply lookup_lt_Some in Hi.
  destruct (lookup_lt_is_Some_2 ACTIONS i) as [act Hact]; [simpl; lia |].
  exists act. split; [exact Hact |]. rewrite Hpick, Hact. reflexivity.
Qed.

Lemma pickBestAction_first_max_witness :
  is_max_index Examples.tied_row 2 /\
  pickBestAction Examples.a_tie Examples.k_blank = Ok d.
Proof.
  assert (Hall : forall n j x, (0 < n)%nat ->
            Examples.tied_row !! j = Some x ->
            Examples.tied_row !! n = Some Num.one ->
            Num.fle x Num.one = true).
  { intros n j x _ Hj _.
    do 5 (destruct j as [|j]; [injection Hj as <-; reflexivity |]).
    discriminate Hj. }
  split.
  - exists Num.one. split; [reflexivity |].
    intros j x Hj. exact (Hall 2%nat j x ltac:(lia) Hj eq_refl).
  - apply (fun H1 H2 H3 =>
             proj1 (pickBestAction_first_max Examples.a_tie Examples.k_blank
                      Examples.tied_row 1 H1 H2 H3)).
    + reflexivity.
    + exists Num.one. split; [reflexivity |].
      intros j x Hj. exact (Hall 1%nat j x ltac:(lia) Hj eq_refl).
    + intros j Hj (top & Htop & Hle).
      assert (j = 0%nat) as -> by lia.
      injection Htop as <-.
      specialize (Hle 1%nat Num.one eq_refl).
      vm_compute in Hle. discriminate Hle.
Defined.

(** * Further properties of the agent *)

(** ** What one tick does to the agent *)

Lemma init_if_absent_fields (a : Agent) (k : string) :
  train (init_if_absent a k) = train a /\
  alpha (init_if_absent a k) = alpha a /\
  gamma (init_if_absent a k) = gamma a /\
  epsilon (init_if_absent a k) = epsilon a /\
  prevState (init_if_absent a k) = prevState a /\
  prevAction (init_if_absent a k) = prevAction a.
Proof.
  unfold init_if_absent.
  destruct (decide (is_Some (q a !! k))); repeat split; reflexivity.
Qed.

Lemma init_if_absent_q (a : Agent) (k : string) :
  (is_Some (q a !! k) /\ init_if_absent a k = a) \/
  (q a !! k = None /\
   q (init_if_absent a k) = <[k := Examples.zeros]> (q a) /\
   disk (init_if_absent a k) = Image (<[k := Examples.zeros]> (q a))).
Proof.
  destruct (q a !! k) as [row|] eqn:E.
  - left. split; [eauto | apply init_if_absent_old; eauto].
  - right. split; [reflexivity |].
    rewrite (init_if_absent_new a k E). split; reflexivity.
Qed.

(** The shape of a tick that returns: the action is the selection over the
    table as [init_if_absent] left it, and the new agent is that one with
    the transition recorded and, when there was a previous transition, one
    entry of the previous key's row rewritten and the file saved. *)
Lemma choose_action_inv (a : Agent) (s : State) (dr : Draw) (act : Action) (a' : Agent) :
  choose_action a s dr = Ok (act, a') ->
  findBestAction (init_if_absent a (_compute_key s)) (_compute_key s) dr = Ok act /\
  ((prevState a = None /\
    a' = set_prev (Q_State_init s) act (init_if_absent a (_compute_key s))) \/
   (exists ps pa idx row old cur m,
      prevState a = Some ps /\ prevAction a = Some pa /\
      actionToIndex (Some pa) = Some idx /\
      q (init_if_absent a (_compute_key s)) !! key ps = Some row /\
      row !! idx = Some old /\
      q (init_if_absent a (_compute_key s)) !! _compute_key s = Some cur /\
      py_max cur = Ok m /\
      a' = set_prev (Q_State_init s) act
             (save (set_q (<[key ps :=
                      <[idx := newQValue (alpha a) (gamma a) old
                                 (reward (Q_State_init s)) (snd m)]> row]>
                      (q (init_if_absent a (_compute_key s))))
                   (init_if_absent a (_compute_key s)))))).
Proof.
  unfold choose_action. simpl key.
  destruct (init_if_absent_fields a (_compute_key s))
    as (_ & Hal & Hga & _ & Hps & Hpa).
  set (a1 := init_if_absent a (_compute_key s)) in *.
  rewrite Hps. destruct (prevState a) as [ps|] eqn:Eps.
  - intros H. apply bind_ok in H as ([act0 a2] & Hq & H).
    simpl in H. injection H as <- <-.
    unfold qLearning in Hq. simpl key in Hq.
    destruct (decide (is_Some (q a1 !! _compute_key s))); [| discriminate].
    apply bind_ok in Hq as (act1 & Hsel & Hq).
    apply bind_ok in Hq as (ps1 & Hps1 & Hq).
    apply bind_ok in Hq as (a3 & Hup & Hq).
    injection Hq as <- <-.
    split; [exact Hsel |]. right.
    unfold updateQTable in Hup.
    apply bind_ok in Hup as (ps2 & Hps2 & Hup).
    apply of_option_ok in Hps2.
    assert (ps2 = ps) as -> by congruence. clear Hps2.
    apply bind_ok in Hup as (cur & Hcur & Hup). apply of_option_ok in Hcur.
    apply bind_ok in Hup as (m & Hm & Hup).
    apply bind_ok in Hup as (row & Hrow & Hup). apply of_option_ok in Hrow.
    apply bind_ok in Hup as (idx & Hidx & Hup). apply of_option_ok in Hidx.
    apply bind_ok in Hup as (old & Hold & Hup). apply of_option_ok in Hold.
    injection Hup as <-.
    rewrite Hpa in Hidx.
    destruct (prevAction a) as [pa|] eqn:Epa; [| discriminate].
    exists ps, pa, idx, row, old, cur, m.
    rewrite Hal, Hga. repeat split; assumption || reflexivity.
  - intros H. apply bind_ok in H as (act0 & Hsel & H).
    injection H as <- <-. split; [exact Hsel |]. left. split; reflexivity.
Qed.

Lemma choose_action_first_ok (a : Agent) (s : State) (dr : Draw) (act : Action) :
  prevState a = None ->
  findBestAction (init_if_absent a (_compute_key s)) (_compute_key s) dr = Ok act ->
  choose_action a s dr
  = Ok (act, set_prev (Q_State_init s) act (init_if_absent a (_compute_key s))).
Proof.
  intros Hps Hsel. unfold choose_action. simpl key.
  destruct (init_if_absent_fields a (_compute_key s)) as (_ & _ & _ & _ & -> & _).
  rewrite Hps, Hsel. reflexivity.
Qed.

Lemma choose_action_later_ok (a : Agent) (s : State) (dr : Draw) (act : Action)
    (ps : Q_State) (pa : Action) (idx : nat) (row cur : list float)
    (old : float) (m : nat * float) :
  prevState a = Some ps -> prevAction a = Some pa ->
  actionToIndex (Some pa) = Some idx ->
  q (init_if_absent a (_compute_key s)) !! key ps = Some row ->
  row !! idx = Some old ->
  q (init_if_absent a (_compute_key s)) !! _compute_key s = Some cur ->
  py_max cur = Ok m ->
  findBestAction (init_if_absent a (_compute_key s)) (_compute_key s) dr = Ok act ->
  choose_action a s dr
  = Ok (act, set_prev (Q_State_init s) act
               (save (set_q (<[key ps :=
                        <[idx := newQValue (alpha a) (gamma a) old
                                   (reward (Q_State_init s)) (snd m)]> row]>
                        (q (init_if_absent a (_compute_key s))))
                     (init_if_absent a (_compute_key s))))).
Proof.
  intros Hps Hpa Hidx Hrow Hold Hcur Hm Hsel.
  unfold choose_action. simpl key.
  destruct (init_if_absent_fields a (_compute_key s))
    as (_ & Hal & Hga & _ & Hps1 & Hpa1).
  set (a1 := init_if_absent a (_compute_key s)) in *.
  rewrite Hps1, Hps. unfold qLearning. simpl key. fold a1.
  destruct (decide (is_Some (q a1 !! _compute_key s))) as [_ | Hno];
    [| exfalso; apply Hno; eauto].
  rewrite Hsel. simpl. rewrite Hps1, Hps. simpl.
  unfold updateQTable. rewrite Hps1, Hps, Hpa1, Hpa, Hidx. simpl.
  rewrite Hcur. simpl. rewrite Hm. simpl. rewrite Hrow. simpl.
  rewrite Hold. simpl. rewrite Hal, Hga. reflexivity.
Qed.

(** X1. A tick that returns records the transition it has just made (the
    state's key and the returned action become the previous ones) and
    leaves the training identifier and the three learning parameters as
    they were. *)
Theorem choose_action_records_transition (a : Agent) (s : State) (dr : Draw)
    (act : Action) (a' : Agent) :
  choose_action a s dr = Ok (act, a') ->
  prevState a' = Some (Q_State_init s) /\
  prevAction a' = Some act /\
  train a' = train a /\ alpha a' = alpha a /\
  gamma a' = gamma a /\ epsilon a' = epsilon a.
Proof.
  intros H. apply choose_action_inv in H as (_ & H).
  destruct (init_if_absent_fields a (_compute_key s))
    as (Htr & Hal & Hga & Hep & _ & _).
  destruct H as [(_ & ->) | (ps & pa & idx & row & old & cur & m & H)].
  - simpl. repeat split; assumption.
  - destruct H as (_ & _ & _ & _ & _ & _ & _ & ->).
    simpl. repeat split; assumption.
Qed.

Lemma choose_action_records_transition_witness :
  exists a',
    choose_action Examples.a_second Examples.s_dead (mkDraw 50 l) = Ok (u, a') /\
    prevState a' = Some (Q_State_init Examples.s_dead) /\
    prevAction a' = Some u /\ epsilon a' = 0%float.
Proof.
  eexists. split; [reflexivity |].
  destruct (choose_action_records_transition Examples.a_second Examples.s_dead
              (mkDraw 50 l) u _ eq_refl) as (H1 & H2 & _ & _ & _ & H3).
  split; [exact H1 |]. split; [exact H2 | exact H3].
Defined.

Lemma union_singleton_member (x : string) (X : gset string) :
  x ∈ X -> {[x]} ∪ X = X.
Proof.
  intros Hx. apply set_eq. intros y.
  rewrite elem_of_union, elem_of_singleton.
  split; [intros [-> | Hy]; assumption | auto].
Qed.

Lemma dom_init_if_absent (a : Agent) (k : string) :
  dom (q (init_if_absent a k)) = {[k]} ∪ dom (q a).
Proof.
  destruct (init_if_absent_q a k) as [(Hin & ->) | (_ & -> & _)].
  - apply elem_of_dom in Hin. symmetry. exact (union_singleton_member _ _ Hin).
  - apply dom_insert_L.
Qed.

(** X2. A tick that returns never removes a key from the table and adds at
    most one: the keys afterwards are the keys before together with the key
    of the state just seen. *)
Theorem choose_action_keys (a : Agent) (s : State) (dr : Draw)
    (act : Action) (a' : Agent) :
  choose_action a s dr = Ok (act, a') ->
  dom (q a') = {[_compute_key s]} ∪ dom (q a).
Proof.
  intros H. apply choose_action_inv in H as (_ & H).
  rewrite <- dom_init_if_absent.
  destruct H as [(_ & ->) | (ps & pa & idx & row & old & cur & m & H)];
    [reflexivity |].
  destruct H as (_ & _ & _ & Hrow & _ & _ & _ & ->).
  simpl. rewrite dom_insert_L.
  apply union_singleton_member, elem_of_dom. eauto.
Qed.

Lemma choose_action_keys_witness :
  exists a',
    choose_action Examples.a_two_keys Examples.s_plain (mkDraw 50 l) = Ok (u, a') /\
    dom (q a') = {[Examples.k_blank]} ∪ dom (q Examples.a_two_keys).
Proof.
  eexists. split; [reflexivity |].
  exact (choose_action_keys Examples.a_two_keys Examples.s_plain
           (mkDraw 50 l) u _ eq_refl).
Defined.

(** X3. A tick that returns rewrites at most one entry of the table as
    [init_if_absent] left it: every entry other than the one for the
    previous key and the previous action's index reads as before. *)
Theorem choose_action_touches_one_entry (a : Agent) (s : State) (dr : Draw)
    (act : Action) (a' : Agent) (k' : string) (j : nat) :
  choose_action a s dr = Ok (act, a') ->
  (forall ps pa, prevState a = Some ps -> prevAction a = Some pa ->
     k' = key ps -> actionToIndex (Some pa) = Some j -> False) ->
  entry (q a') k' j = entry (q (init_if_absent a (_compute_key s))) k' j.
Proof.
  intros H Hother. apply choose_action_inv in H as (_ & H).
  destruct H as [(_ & ->) | (ps & pa & idx & row & old & cur & m & H)];
    [reflexivity |].
  destruct H as (Hps & Hpa & Hidx & Hrow & _ & _ & _ & ->).
  unfold entry. simpl.
  destruct (decide (k' = key ps)) as [-> | Hne].
  - rewrite lookup_insert_eq, Hrow.
    apply list_lookup_insert_ne. intros <-.
    exact (Hother ps pa Hps Hpa eq_refl Hidx).
  - rewrite lookup_insert_ne by congruence. reflexivity.
Qed.

Lemma choose_action_touches_one_entry_witness :
  exists a',
    choose_action Examples.a_two_keys Examples.s_dead (mkDraw 50 l) = Ok (u, a') /\
    entry (q a') Examples.k_blank 0 = Some 1%float /\
    entry (q a') Examples.k_blank 2 = Some (-0.9400000000000001)%float.
Proof.
  eexists. split; [reflexivity |]. split; [| reflexivity].
  rewrite (choose_action_touches_one_entry Examples.a_two_keys Examples.s_dead
             (mkDraw 50 l) u _ Examples.k_blank 0 eq_refl); [reflexivity |].
  intros ps pa Hps Hpa _ Hidx.
  injection Hpa as <-. discriminate Hidx.
Defined.

(** X4. When there is no previous transition and the state's key is already
    in the table, a tick that returns changes nothing but the recorded
    transition: the table and the file are exactly as before. *)
Theorem choose_action_first_tick_known_key (a : Agent) (s : State) (dr : Draw)
    (act : Action) (a' : Agent) :
  prevState a = None ->
  is_Some (q a !! _compute_key s) ->
  choose_action a s dr = Ok (act, a') ->
  a' = set_prev (Q_State_init s) act a.
Proof.
  intros Hps Hin H. apply choose_action_inv in H as (_ & H).
  rewrite (init_if_absent_old a (_compute_key s) Hin) in H.
  destruct H as [(_ & ->) | (ps & pa & idx & row & old & cur & m & H)];
    [reflexivity |].
  destruct H as (Hsome & _). congruence.
Qed.

Lemma choose_action_first_tick_known_key_witness :
  exists a',
    choose_action Examples.a_tie Examples.s_plain (mkDraw 50 l) = Ok (d, a') /\
    q a' = q Examples.a_tie /\ disk a' = Missing.
Proof.
  eexists. split; [reflexivity |].
  rewrite (choose_action_first_tick_known_key Examples.a_tie Examples.s_plain
             (mkDraw 50 l) d _ eq_refl
             (ex_intro _ Examples.tied_row eq_refl) eq_refl).
  split; reflexivity.
Defined.

(** ** Greedy selection: when it returns and when it raises *)

Lemma max_from_lookup (xs : list float) :
  forall (best : nat * float) (i : nat),
    max_from best i xs = best \/
    exists n, xs !! n = Some (snd (max_from best i xs)) /\
              fst (max_from best i xs) = (i + n)%nat.
Proof.
  induction xs as [|x rest IH]; intros best i; simpl; [left; reflexivity |].
  destruct (IH (if Num.flt (snd best) x then (i, x) else best) (S i))
    as [Hsame | (n & Hn & Hp)].
  - rewrite Hsame. destruct (Num.flt (snd best) x); [| left; reflexivity].
    right. exists 0%nat. simpl. split; [reflexivity | lia].
  - right. exists (S n). split; [exact Hn | rewrite Hp; lia].
Qed.

Lemma py_max_position (v : list float) (p : nat) (m : float) :
  py_max v = Ok (p, m) -> v !! p = Some m.
Proof.
  destruct v as [|x0 rest]; simpl; [discriminate |].
  intros [= H].
  destruct (max_from_lookup rest (0%nat, x0) 1%nat) as [Hsame | (n & Hn & Hp)];
    rewrite H in *; simpl in *.
  - injection Hsame as -> ->. reflexivity.
  - subst p. exact Hn.
Qed.

Lemma index_from_total (xs : list float) (p : nat) (m : float) :
  forall i, (i <= p < i + length xs)%nat ->
    exists n, index_from i xs p m = Ok n /\ (i <= n <= p)%nat.
Proof.
  induction xs as [|x rest IH]; intros i Hp; simpl in *; [lia |].
  destruct (Nat.eqb i p) eqn:E; simpl.
  - exists i. split; [reflexivity | lia].
  - apply Nat.eqb_neq in E.
    destruct (Num.feq x m); [exists i; split; [reflexivity | lia] |].
    destruct (IH (S i) ltac:(lia)) as (n & Hn & Hb).
    exists n. split; [exact Hn | lia].
Qed.

(** On a non-empty row, [max] and [index] return, and the index found is
    that of an entry of the row. *)
Lemma py_index_of_max (v : list float) :
  v <> [] ->
  exists p m n, py_max v = Ok (p, m) /\ py_index v (p, m) = Ok n /\
                (n <= p < length v)%nat.
Proof.
  intros Hne. destruct (py_max_nonempty v Hne) as ([p m] & Hm).
  pose proof (py_max_position v p m Hm) as Hp.
  apply lookup_lt_Some in Hp.
  destruct (index_from_total v p m 0%nat ltac:(lia)) as (n & Hn & Hb).
  exists p, m, n. split; [exact Hm |]. split; [exact Hn | lia].
Qed.

Lemma pickBestAction_ok (a : Agent) (k : string) (row : list float) :
  q a !! k = Some row -> row <> [] -> (length row <= 5)%nat ->
  exists act, pickBestAction a k = Ok act.
Proof.
  intros Hk Hne Hlen.
  destruct (py_index_of_max row Hne) as (p & m & n & Hm & Hn & Hb).
  destruct (lookup_lt_is_Some_2 ACTIONS n) as [act Hact]; [simpl; lia |].
  exists act. unfold pickBestAction.
  rewrite Hk. simpl. rewrite Hm. simpl. rewrite Hn. simpl. rewrite Hact.
  reflexivity.
Qed.

Lemma findBestAction_ok (a : Agent) (k : string) (dr : Draw) (row : list float) :
  q a !! k = Some row -> row <> [] -> (length row <= 5)%nat ->
  exists act, findBestAction a k dr = Ok act.
Proof.
  intros Hk Hne Hlen. unfold findBestAction.
  destruct (Num.fle _ _); [eauto | exact (pickBestAction_ok a k row Hk Hne Hlen)].
Qed.

(** X5. The greedy selection raises [KeyError] exactly when the key is not
    in the table and [ValueError] exactly when its row is empty; it can
    raise [IndexError] only on a row of more than five entries; on a row of
    one to five entries it returns an action. *)
Theorem pickBestAction_errors (a : Agent) (k : string) :
  (pickBestAction a k = Raise KeyError <-> q a !! k = None) /\
  (pickBestAction a k = Raise ValueError <-> q a !! k = Some []) /\
  (pickBestAction a k = Raise IndexError ->
     exists row, q a !! k = Some row /\ (5 < length row)%nat) /\
  (forall row, q a !! k = Some row -> row <> [] -> (length row <= 5)%nat ->
     exists act, pickBestAction a k = Ok act).
Proof.
  assert (Hcases : q a !! k = None \/ q a !! k = Some [] \/
                   exists row, q a !! k = Some row /\ row <> []).
  { destruct (q a !! k) as [[|x row]|]; [tauto | | tauto].
    right. right. eexists. split; [reflexivity | discriminate]. }
  assert (Hfull : forall row, q a !! k = Some row -> row <> [] ->
            (exists act, pickBestAction a k = Ok act) \/
            (pickBestAction a k = Raise IndexError /\ (5 < length row)%nat)).
  { intros row Hk Hne.
    destruct (py_index_of_max row Hne) as (p & m & n & Hm & Hn & Hb).
    unfold pickBestAction.
    rewrite Hk. simpl. rewrite Hm. simpl. rewrite Hn. simpl.
    destruct (ACTIONS !! n) as [act|] eqn:Hact; simpl; [eauto |].
    right. split; [reflexivity |].
    apply lookup_ge_None in Hact. simpl in Hact. lia. }
  repeat split.
  - intros H. destruct Hcases as [Hn | [He | (row & Hk & Hne)]]; [exact Hn | |].
    + unfold pickBestAction in H. rewrite He in H. discriminate H.
    + destruct (Hfull row Hk Hne) as [(act & Hok) | (Hix & _)]; congruence.
  - intros Hn. unfold pickBestAction. rewrite Hn. reflexivity.
  - intros H. destruct Hcases as [Hn | [He | (row & Hk & Hne)]]; [| exact He |].
    + unfold pickBestAction in H. rewrite Hn in H. discriminate H.
    + destruct (Hfull row Hk Hne) as [(act & Hok) | (Hix & _)]; congruence.
  - intros He. unfold pickBestAction. rewrite He. reflexivity.
  - intros H. destruct Hcases as [Hn | [He | (row & Hk & Hne)]].
    + unfold pickBestAction in H. rewrite Hn in H. discriminate H.
    + unfold pickBestAction in H. rewrite He in H. discriminate H.
    + exists row. split; [exact Hk |].
      destruct (Hfull row Hk Hne) as [(act & Hok) | (_ & Hlen)];
        [congruence | exact Hlen].
  - intros row Hk Hne Hlen.
    destruct (Hfull row Hk Hne) as [Hok | (_ & Hbig)]; [exact Hok | lia].
Qed.

Lemma pickBestAction_errors_witness :
  pickBestAction Examples.a_fresh Examples.k_blank = Raise KeyError /\
  exists act, pickBestAction Examples.a_tie Examples.k_blank = Ok act.
Proof.
  split.
  - apply (proj1 (pickBestAction_errors Examples.a_fresh Examples.k_blank)).
    reflexivity.
  - apply (proj2 (proj2 (proj2
             (pickBestAction_errors Examples.a_tie Examples.k_blank)))
             Examples.tied_row);
      [reflexivity | discriminate | simpl; lia].
Defined.

(** ** Not-a-number in the table *)

Lemma flt_nan_l (x y : float) :
  PrimFloat.eqb x x = false -> Num.flt x y = false.
Proof.
  intros Hnan. destruct (Num.flt x y) eqn:E; [| reflexivity].
  apply flt_rank in E as (a & b & Ha & _).
  assert (Num.feq x x = true) by (apply feq_rank; eauto).
  unfold Num.feq in *. congruence.
Qed.

Lemma max_from_nan (xs : list float) (p i : nat) (x : float) :
  PrimFloat.eqb x x = false -> max_from (p, x) i xs = (p, x).
Proof.
  intros Hnan. revert i. induction xs as [|y rest IH]; intros i; simpl;
    [reflexivity |].
  rewrite (flt_nan_l x y Hnan). apply IH.
Qed.

(** X6. A row whose first entry is NaN always selects [u], whatever the
    other entries are: no entry compares greater than NaN, so [max] keeps
    the first item, and [index] finds that very item at position 0. *)
Theorem pickBestAction_nan_first (a : Agent) (k : string) (x : float)
    (rest : list float) :
  q a !! k = Some (x :: rest) ->
  PrimFloat.eqb x x = false ->
  pickBestAction a k = Ok u.
Proof.
  intros Hk Hnan. unfold pickBestAction. rewrite Hk. simpl.
  rewrite (max_from_nan rest 0 1 x Hnan). reflexivity.
Qed.

Lemma pickBestAction_nan_first_witness :
  pickBestAction
    (set_q {[ Examples.k_blank := [PrimFloat.nan; 5%float; 7%float; 0%float; 0%float] ]}
           Examples.a_fresh)
    Examples.k_blank = Ok u.
Proof.
  apply (pickBestAction_nan_first _ Examples.k_blank PrimFloat.nan
           [5%float; 7%float; 0%float; 0%float]); reflexivity.
Defined.

(** ** Runs of ticks *)

Lemma run_cons_ok (a : Agent) (tick : State * Draw) (rest : list (State * Draw))
    (acts : list Action) (a' : Agent) :
  run a (tick :: rest) = Ok (acts, a') ->
  exists act a1 acts',
    choose_action a (fst tick) (snd tick) = Ok (act, a1) /\
    run a1 rest = Ok (acts', a') /\ acts = act :: acts'.
Proof.
  simpl. intros H.
  apply bind_ok in H as ([act a1] & Htick & H).
  apply bind_ok in H as ([acts' a2] & Hrest & H).
  simpl in *. injection H as <- <-. eauto 6.
Qed.

Lemma init_if_absent_keeps (a : Agent) (k k' : string) (row : list float) :
  q a !! k' = Some row -> q (init_if_absent a k) !! k' = Some row.
Proof.
  intros Hk'. destruct (init_if_absent_q a k) as [(_ & ->) | (Hn & -> & _)];
    [exact Hk' |].
  rewrite lookup_insert_ne by congruence. exact Hk'.
Qed.

Lemma init_if_absent_rows (a : Agent) (k k' : string) (row : list float) :
  q (init_if_absent a k) !! k' = Some row ->
  q a !! k' = Some row \/ row = Examples.zeros.
Proof.
  destruct (init_if_absent_q a k) as [(_ & ->) | (Hn & -> & _)]; [auto |].
  destruct (decide (k = k')) as [<- | Hne].
  - rewrite lookup_insert_eq. intros [= <-]. auto.
  - rewrite lookup_insert_ne by exact Hne. auto.
Qed.

(** One tick on a well-formed agent returns, and returns a well-formed
    agent. *)
Lemma choose_action_well_formed (a : Agent) (s : State) (dr : Draw) :
  well_formed a ->
  exists act a', choose_action a s dr = Ok (act, a') /\ well_formed a'.
Proof.
  intros (Hrows & Hprev).
  set (k := _compute_key s). set (a1 := init_if_absent a k).
  assert (Hrows1 : rows_have_five (q a1)).
  { intros k' row Hk'. destruct (init_if_absent_rows a k k' row Hk') as [H | ->];
      [exact (Hrows k' row H) | reflexivity]. }
  destruct (init_if_absent_present a k) as [cur Hcur]. fold a1 in Hcur.
  pose proof (Hrows1 k cur Hcur) as Hlen.
  assert (Hne : cur <> []) by (intros ->; discriminate Hlen).
  destruct (findBestAction_ok a1 k dr cur Hcur Hne ltac:(lia)) as [act Hsel].
  exists act. unfold prev_recorded in Hprev.
  destruct (prevState a) as [ps|] eqn:Hps.
  - destruct Hprev as ([row0 Hrow0] & [pa Hpa]).
    pose proof (init_if_absent_keeps a k (key ps) row0 Hrow0) as Hrow.
    fold a1 in Hrow.
    destruct (actionToIndex_some pa) as (idx & Hidx & Hlt).
    destruct (lookup_lt_is_Some_2 row0 idx) as [old Hold];
      [rewrite (Hrows1 _ _ Hrow); exact Hlt |].
    destruct (py_max_nonempty cur Hne) as [m Hm].
    eexists. split.
    + exact (choose_action_later_ok a s dr act ps pa idx row0 cur old m
               Hps Hpa Hidx Hrow Hold Hcur Hm Hsel).
    + split.
      * intros k' row. simpl. destruct (decide (key ps = k')) as [<- | Hd].
        -- rewrite lookup_insert_eq. intros [= <-].
           rewrite length_insert. exact (Hrows1 _ _ Hrow).
        -- rewrite lookup_insert_ne by exact Hd. apply Hrows1.
      * unfold prev_recorded. simpl. split; [| eauto].
        fold k. destruct (decide (key ps = k)) as [-> | Hd].
        -- rewrite lookup_insert_eq. eauto.
        -- rewrite lookup_insert_ne by exact Hd. eauto.
  - eexists. split; [exact (choose_action_first_ok a s dr act Hps Hsel) |].
    split; [exact Hrows1 |].
    unfold prev_recorded. simpl. split; eauto.
Qed.

(** X7. An agent constructed from a file whose rows all have five entries
    (or from no file, in training) is well formed: every row has five
    entries and the previous transition, if any, names a key of the table
    and an action.  From a well-formed agent, a run that returns has
    returned one action per tick and a well-formed agent again; and no run
    raises any of the exceptions of the table and policy operations
    ([KeyError], [ValueError], [IndexError], [TypeError],
    [AttributeError], [UnboundLocalError]).  Whatever else can stop a run
    lies outside these operations: a file write that fails, or a row that
    does not hold floats. *)
Theorem run_well_formed :
  (forall tr f a, Agent_init tr f = Ok a ->
     (forall t, f = Image t -> rows_have_five t) -> well_formed a) /\
  (forall ticks a acts a', well_formed a -> run a ticks = Ok (acts, a') ->
     length acts = length ticks /\ well_formed a') /\
  (forall ticks a e, well_formed a -> run a ticks <> Raise e).
Proof.
  assert (Hrun : forall ticks a, well_formed a ->
            exists acts a', run a ticks = Ok (acts, a') /\
                            length acts = length ticks /\ well_formed a').
  { induction ticks as [|[s dr] rest IH]; intros a Hwf.
    - exists [], a. split; [reflexivity | split; [reflexivity | exact Hwf]].
    - destruct (choose_action_well_formed a s dr Hwf) as (act & a1 & Htick & Hwf1).
      destruct (IH a1 Hwf1) as (acts & a' & Hrest & Hlen & Hwf').
      exists (act :: acts), a'. simpl. rewrite Htick. simpl. rewrite Hrest. simpl.
      split; [reflexivity | split; [lia | exact Hwf']]. }
  split; [| split].
  - intros tr f a H Hf. unfold Agent_init in H.
    apply bind_ok in H as (a0 & Hload & H). injection H as <-.
    split; [| exact I]. simpl.
    unfold load in Hload. simpl in Hload. destruct f as [| | t].
    + destruct (truthy tr); [| discriminate]. injection Hload as <-.
      intros k row Hk. simpl in Hk. rewrite lookup_empty in Hk. discriminate.
    + discriminate.
    + injection Hload as <-. exact (Hf t eq_refl).
  - intros ticks a acts a' Hwf Hok.
    destruct (Hrun ticks a Hwf) as (acts0 & a0 & Hok0 & Hlen & Hwf').
    rewrite Hok0 in Hok. injection Hok as <- <-. split; assumption.
  - intros ticks a e Hwf Hbad.
    destruct (Hrun ticks a Hwf) as (acts0 & a0 & Hok0 & _).
    rewrite Hok0 in Hbad. discriminate Hbad.
Qed.

Lemma run_well_formed_witness :
  (forall e,
     run Examples.a_second
         [(Examples.s_dead, mkDraw 50 l); (Examples.s_other, mkDraw 0 r)]
     <> Raise e) /\
  exists acts a',
    run Examples.a_second
        [(Examples.s_dead, mkDraw 50 l); (Examples.s_other, mkDraw 0 r)]
    = Ok (acts, a') /\ length acts = 2%nat /\ well_formed a'.
Proof.
  assert (Hwf : well_formed Examples.a_second).
  { split.
    - intros k row Hk. simpl in Hk.
      apply lookup_singleton_Some in Hk as [_ <-]. reflexivity.
    - split; [exists Examples.zeros | exists u]; reflexivity. }
  split.
  - intros e. exact (proj2 (proj2 run_well_formed) _ Examples.a_second e Hwf).
  - eexists. eexists. split; [reflexivity |].
    exact (proj1 (proj2 run_well_formed)
             [(Examples.s_dead, mkDraw 50 l); (Examples.s_other, mkDraw 0 r)]
             Examples.a_second _ _ Hwf eq_refl).
Defined.

Lemma choose_action_file (a : Agent) (s : State) (dr : Draw) (act : Action) (a' : Agent) :
  file_in_step a -> choose_action a s dr = Ok (act, a') ->
  disk a' = Image (q a').
Proof.
  intros Hfile H. apply choose_action_inv in H as (_ & H).
  destruct H as [(_ & ->) | (ps & pa & idx & row & old & cur & m & H)].
  - simpl. destruct (init_if_absent_q a (_compute_key s))
      as [([v Hin] & ->) | (_ & -> & ->)]; [| reflexivity].
    destruct Hfile as [Hd | He]; [exact Hd |].
    rewrite He, lookup_empty in Hin. discriminate.
  - destruct H as (_ & _ & _ & _ & _ & _ & _ & ->). reflexivity.
Qed.

(** X8. A freshly constructed agent has its file in step with its table
    (the file holds the table, or the table is empty), and from such an
    agent every non-empty run that returns ends with the file holding
    exactly the table in memory. *)
Theorem run_keeps_file_in_step :
  (forall tr f a, Agent_init tr f = Ok a -> file_in_step a) /\
  (forall ticks a acts a',
     file_in_step a -> ticks <> [] -> run a ticks = Ok (acts, a') ->
     disk a' = Image (q a')).
Proof.
  split.
  - intros tr f a H. unfold Agent_init in H.
    apply bind_ok in H as (a0 & Hload & H). injection H as <-.
    unfold file_in_step. simpl.
    unfold load in Hload. simpl in Hload. destruct f as [| | t].
    + destruct (truthy tr); [| discriminate]. injection Hload as <-. right.
      reflexivity.
    + discriminate.
    + injection Hload as <-. left. reflexivity.
  - induction ticks as [|tick rest IH]; intros a acts a' Hfile Hne Hrun;
      [contradiction |].
    apply run_cons_ok in Hrun as (act & a1 & acts' & Htick & Hrest & _).
    pose proof (choose_action_file a _ _ act a1 Hfile Htick) as Hsync.
    destruct rest as [|tick2 rest].
    + simpl in Hrest. injection Hrest as _ <-. exact Hsync.
    + apply (IH a1 acts' a'); [left; exact Hsync | discriminate | exact Hrest].
Qed.

Lemma run_keeps_file_in_step_witness :
  exists acts a',
    run Examples.a_fresh [(Examples.s_plain, mkDraw 50 l)] = Ok (acts, a') /\
    disk a' = Image (q a').
Proof.
  eexists. eexists. split; [reflexivity |].
  eapply (proj2 run_keeps_file_in_step [(Examples.s_plain, mkDraw 50 l)]
            Examples.a_fresh);
    [right; reflexivity | discriminate | reflexivity].
Defined.

(** ** Selection with [epsilon = 0], draw by draw *)

(** X9. With [epsilon = 0], of the hundred possible draws of
    [randrange(0, 100)] exactly the draw 0 returns the action picked by
    [random.choice]; each of the draws 1 to 99 returns what the greedy
    selection returns (its action or its exception). *)
Theorem findBestAction_eps0_by_draw (a : Agent) (k : string) (dr : Draw) :
  epsilon a = 0%float ->
  0 <= randrange dr <= 99 ->
  findBestAction a k dr
  = if randrange dr =? 0 then Ok (choice dr) else pickBestAction a k.
Proof.
  intros He Hz. unfold findBestAction. rewrite He.
  destruct (Z.eqb_spec (randrange dr) 0) as [-> | Hnz]; [reflexivity |].
  change 0%float with Num.zero.
  rewrite draw_above_zero by lia. reflexivity.
Qed.

Lemma findBestAction_eps0_by_draw_witness :
  findBestAction Examples.a_prefers_d Examples.k_blank (mkDraw 99 r) = Ok d /\
  findBestAction Examples.a_prefers_d Examples.k_blank (mkDraw 0 r) = Ok r.
Proof.
  split.
  - rewrite (findBestAction_eps0_by_draw Examples.a_prefers_d Examples.k_blank
               (mkDraw 99 r) eq_refl); [reflexivity | simpl; lia].
  - rewrite (findBestAction_eps0_by_draw Examples.a_prefers_d Examples.k_blank
               (mkDraw 0 r) eq_refl); [reflexivity | simpl; lia].
Defined.

(** ** Action indices *)

(** X10. [actionToIndex] is the inverse of indexing [ACTIONS]: an action
    has index [idx] exactly when it is the item at position [idx] of the
    canonical order, so the entry the update writes for an action is the
    entry the greedy selection reads for it. *)
Theorem actionToIndex_ACTIONS (act : Action) (idx : nat) :
  actionToIndex (Some act) = Some idx <-> ACTIONS !! idx = Some act.
Proof.
  split.
  - destruct act; simpl; intros [= <-]; reflexivity.
  - intros H.
    do 5 (destruct idx as [|idx]; [injection H as <-; reflexivity |]).
    discriminate H.
Qed.

(** ** The key as an encoding of the window *)

Lemma string_length_app (s t : string) :
  String.length (s ++ t) = (String.length s + String.length t)%nat.
Proof. induction s as [|c s IH]; simpl; [reflexivity | rewrite IH; reflexivity]. Qed.

Lemma or_underscore_length (o : option string) :
  (forall c, o = Some c -> (String.length c <= 1)%nat) ->
  String.length (or_underscore o) = 1%nat.
Proof.
  intros H. destruct o as [c|]; simpl; [| reflexivity].
  destruct (decide (c = "")) as [-> | Hne]; [reflexivity |].
  specialize (H c eq_refl). destruct c as [|ch c]; [contradiction |].
  simpl in *. lia.
Qed.

Lemma cell_length (s : State) (x y : Z) :
  single_symbols s -> String.length (or_underscore (get s x y)) = 1%nat.
Proof. intros Hs. apply or_underscore_length. intros c Hc. exact (Hs x y c Hc). Qed.

(** X11. On a board whose cells hold at most one character each, the key
    is a string of exactly 20 characters. *)
Theorem compute_key_length (s : State) :
  single_symbols s -> String.length (_compute_key s) = 20%nat.
Proof.
  intros Hs. unfold _compute_key, join. simpl.
  rewrite !string_length_app, !(cell_length s _ _ Hs). reflexivity.
Qed.

Lemma compute_key_length_witness :
  String.length (_compute_key Examples.s_other) = 20%nat.
Proof.
  apply (compute_key_length Examples.s_other).
  intros x y c. unfold Examples.s_other, Examples.far_car. simpl.
  destruct (decide (x = 40 /\ y = 40)); [intros [= <-]; simpl; lia |].
  destruct (decide (x = 5 /\ y = 4)); [intros [= <-]; simpl; lia |].
  discriminate.
Defined.

Lemma one_char_prefix (a b x y : string) :
  String.length a = 1%nat -> String.length b = 1%nat ->
  (a ++ x)%string = (b ++ y)%string -> a = b /\ x = y.
Proof.
  destruct a as [|ca [|? ?]]; simpl; try discriminate.
  destruct b as [|cb [|? ?]]; simpl; try discriminate.
  intros _ _ H. injection H as -> Htail. split; [reflexivity | exact Htail].
Qed.

(** X12. On boards whose cells hold at most one character each, the key
    determines the window: two states with the same key show the same
    symbol (['_'] for an absent cell) at each of the 20 offsets. *)
Theorem compute_key_injective (s1 s2 : State) :
  single_symbols s1 -> single_symbols s2 ->
  _compute_key s1 = _compute_key s2 ->
  forall dx dy, -2 <= dx <= 2 -> -2 <= dy <= 1 ->
    or_underscore (get s1 (frog_x s1 + dx) (frog_y s1 + dy)) =
    or_underscore (get s2 (frog_x s2 + dx) (frog_y s2 + dy)).
Proof.
  intros H1 H2 Hkey dx dy Hx Hy.
  unfold _compute_key, join in Hkey. simpl in Hkey.
  repeat match type of Hkey with
         | (?a ++ ?x)%string = (?b ++ ?y)%string =>
             let E := fresh "E" in
             destruct (one_char_prefix a b x y
                         (cell_length s1 _ _ H1) (cell_length s2 _ _ H2) Hkey)
               as [E Hkey']; clear Hkey; rename Hkey' into Hkey
         end.
  assert (Ex : dx = -2 \/ dx = -1 \/ dx = 0 \/ dx = 1 \/ dx = 2) by lia.
  assert (Ey : dy = -2 \/ dy = -1 \/ dy = 0 \/ dy = 1) by lia.
  destruct Ex as [-> | [-> | [-> | [-> | ->]]]];
    destruct Ey as [-> | [-> | [-> | ->]]];
    rewrite ?Z.add_0_r; assumption.
Qed.

Lemma compute_key_injective_witness :
  or_underscore (get Examples.s_plain (3 + 0) (3 + -1)) =
  or_underscore (get Examples.s_other (5 + 0) (5 + -1)).
Proof.
  apply (compute_key_injective Examples.s_plain Examples.s_other);
    [ intros x y c; discriminate
    | intros x y c; unfold Examples.s_other, Examples.far_car; simpl;
      destruct (decide (x = 40 /\ y = 40)); [intros [= <-]; simpl; lia |];
      destruct (decide (x = 5 /\ y = 4)); [intros [= <-]; simpl; lia |];
      discriminate
    | reflexivity | lia | lia ].
Defined.

(** ** Arriving at a state never seen before *)

(** X13. When a tick with a previous transition arrives at a key that is
    not in the table yet, the key gets the zero row and the update
    bootstraps from 0: the entry of the previous key and action becomes
    [(1 - alpha) * old + alpha * (R + gamma * 0)], with [R] the reward of
    the state just reached. *)
Theorem choose_action_new_key (a : Agent) (s : State) (dr : Draw)
    (act : Action) (a' : Agent) (ps : Q_State) (pa : Action) (idx : nat)
    (row : list float) :
  q a !! _compute_key s = None ->
  prevState a = Some ps -> prevAction a = Some pa ->
  actionToIndex (Some pa) = Some idx ->
  q a !! key ps = Some row ->
  choose_action a s dr = Ok (act, a') ->
  q a' !! _compute_key s = Some [0%float; 0%float; 0%float; 0%float; 0%float] /\
  exists old,
    row !! idx = Some old /\
    q a' !! key ps
    = Some (<[idx := ((1 - alpha a) * old
                      + alpha a * (reward (Q_State_init s) + gamma a * 0))%float]>
              row).
Proof.
  intros Hnew Hps Hpa Hidx Hrow H.
  assert (Hne : key ps <> _compute_key s) by congruence.
  apply choose_action_inv in H as (_ & H).
  destruct H as [(Hnone & _) | (ps' & pa' & idx' & row' & old & cur & m & H)];
    [congruence |].
  destruct H as (Hps' & Hpa' & Hidx' & Hrow' & Hold & Hcur & Hm & ->).
  assert (ps' = ps) as -> by congruence.
  assert (pa' = pa) as -> by congruence.
  assert (idx' = idx) as -> by congruence.
  rewrite (init_if_absent_keeps a _ _ row Hrow) in Hrow'. injection Hrow' as <-.
  rewrite (init_if_absent_new a _ Hnew) in Hcur. unfold addNewStateToQTable in Hcur.
  rewrite save_q in Hcur. simpl in Hcur. rewrite lookup_insert_eq in Hcur.
  injection Hcur as <-. injection Hm as <-.
  simpl q. split.
  - rewrite lookup_insert_ne by exact Hne.
    rewrite (init_if_absent_new a _ Hnew). unfold addNewStateToQTable.
    rewrite save_q. simpl. apply lookup_insert_eq.
  - exists old. split; [exact Hold |]. apply lookup_insert_eq.
Qed.

Lemma choose_action_new_key_witness :
  exists a',
    choose_action Examples.a_two_keys s_car_goal (mkDraw 50 l) = Ok (u, a') /\
    q a' !! "__C_________________"
    = Some [0%float; 0%float; 0%float; 0%float; 0%float] /\
    q a' !! Examples.k_blank
    = Some [1%float; 0%float; 4.2000000000000002%float; 0%float; 0%float].
Proof.
  eexists. split; [reflexivity |].
  destruct (choose_action_new_key Examples.a_two_keys s_car_goal
              (mkDraw 50 l) u _ (Q_State_init Examples.s_plain) l 2
              [Num.one; Num.zero; Num.zero; Num.zero; Num.zero]
              eq_refl eq_refl eq_refl eq_refl eq_refl eq_refl)
    as (Hzero & old & Hold & Hnew).
  split; [exact Hzero |].
  injection Hold as <-. etrans; [exact Hnew |]. vm_compute. reflexivity.
Defined.

(** ** A run in which nothing happens *)

Lemma untrained_pick (a : Agent) (k : string) :
  q a !! k = Some Examples.zeros -> pickBestAction a k = Ok u.
Proof. intros Hk. unfold pickBestAction. rewrite Hk. reflexivity. Qed.

Lemma zeros_entry (pa : Action) (idx : nat) :
  actionToIndex (Some pa) = Some idx ->
  Examples.zeros !! idx = Some Num.zero /\
  <[idx := Num.zero]> Examples.zeros = Examples.zeros.
Proof. destruct pa; intros [= <-]; split; reflexivity. Qed.

(** One quiet tick on an untrained agent returns [u] and leaves the agent
    untrained. *)
Lemma choose_action_quiet (a : Agent) (s : State) (dr : Draw) :
  untrained a -> quiet (s, dr) ->
  exists a', choose_action a s dr = Ok (u, a') /\ untrained a'.
Proof.
  intros (Hal & Hga & Hep & Hrows & Hprev) (Hgoal & Hdone & Hdraw).
  simpl in Hgoal, Hdone, Hdraw.
  set (k := _compute_key s). set (a1 := init_if_absent a k).
  destruct (init_if_absent_fields a k) as (_ & Hal1 & Hga1 & Hep1 & Hps1 & Hpa1).
  fold a1 in Hal1, Hga1, Hep1, Hps1, Hpa1.
  assert (Hrows1 : forall k' row, q a1 !! k' = Some row -> row = Examples.zeros).
  { intros k' row Hk'. destruct (init_if_absent_rows a k k' row Hk') as [H | ->];
      [exact (Hrows k' row H) | reflexivity]. }
  destruct (init_if_absent_present a k) as [cur Hcur]. fold a1 in Hcur.
  pose proof (Hrows1 k cur Hcur) as ->.
  assert (Hsel : findBestAction a1 k dr = Ok u).
  { rewrite (findBestAction_eps0_greedy a1 k dr);
      [| rewrite Hep1, Hep; reflexivity | exact Hdraw].
    exact (untrained_pick a1 k Hcur). }
  unfold prev_recorded in Hprev.
  destruct (prevState a) as [ps|] eqn:Hps.
  - destruct Hprev as ([row0 Hrow0] & [pa Hpa]).
    pose proof (init_if_absent_keeps a k (key ps) row0 Hrow0) as Hrow.
    fold a1 in Hrow. pose proof (Hrows1 _ _ Hrow) as ->.
    destruct (actionToIndex_some pa) as (idx & Hidx & _).
    destruct (zeros_entry pa idx Hidx) as (Hold & Hsame).
    eexists. split.
    + exact (choose_action_later_ok a s dr u ps pa idx Examples.zeros
               Examples.zeros Num.zero (0%nat, Num.zero)
               Hps Hpa Hidx Hrow Hold Hcur eq_refl Hsel).
    + assert (Hval : newQValue (alpha a) (gamma a) Num.zero
                       (reward (Q_State_init s)) Num.zero = Num.zero).
      { unfold reward. simpl. rewrite Hgoal, Hdone, Hal, Hga. reflexivity. }
      simpl snd. rewrite Hval, Hsame.
      unfold untrained, prev_recorded. simpl. fold k. fold a1.
      split; [congruence |]. split; [congruence |]. split; [congruence |].
      split.
      * intros k' row. destruct (decide (key ps = k')) as [<- | Hd].
        -- rewrite lookup_insert_eq. congruence.
        -- rewrite lookup_insert_ne by exact Hd. apply Hrows1.
      * split; [| eauto].
        destruct (decide (key ps = k)) as [-> | Hd].
        -- rewrite lookup_insert_eq. eauto.
        -- rewrite lookup_insert_ne by exact Hd. eauto.
  - eexists. split; [exact (choose_action_first_ok a s dr u Hps Hsel) |].
    unfold untrained, prev_recorded. simpl. fold k. fold a1.
    split; [congruence |]. split; [congruence |]. split; [congruence |].
    split; [exact Hrows1 | split; eauto].
Qed.

(** X14. Rewards are the only source of learning.  A freshly constructed
    agent that starts without a file is untrained; and an untrained agent
    taken through any number of ticks on which the state is neither the
    goal nor a loss and the draw is between 1 and 99 returns [u] on every
    tick and ends untrained: every row of its table is still the zero
    vector. *)
Theorem run_quiet_learns_nothing :
  (forall tr a, Agent_init tr Missing = Ok a -> untrained a) /\
  (forall ticks a, untrained a -> Forall quiet ticks ->
     exists a', run a ticks = Ok (replicate (length ticks) u, a') /\
                untrained a').
Proof.
  split.
  - intros tr a H. unfold Agent_init in H.
    apply bind_ok in H as (a0 & Hload & H). injection H as <-.
    unfold load in Hload. simpl in Hload.
    destruct (truthy tr); [| discriminate]. injection Hload as <-.
    unfold untrained, prev_recorded. simpl.
    repeat split. intros k row Hk. rewrite lookup_empty in Hk. discriminate.
  - induction ticks as [|[s dr] rest IH]; intros a Hun Hquiet.
    + exists a. split; [reflexivity | exact Hun].
    + apply Forall_cons in Hquiet as (Hq & Hrest).
      destruct (choose_action_quiet a s dr Hun Hq) as (a1 & Htick & Hun1).
      destruct (IH a1 Hun1 Hrest) as (a' & Hrun & Hun').
      exists a'. simpl. rewrite Htick. simpl. rewrite Hrun. simpl.
      split; [reflexivity | exact Hun'].
Qed.

Lemma run_quiet_learns_nothing_witness :
  exists a',
    run Examples.a_fresh
        [(Examples.s_plain, mkDraw 50 l); (Examples.s_plain, mkDraw 7 d);
         (Examples.s_plain, mkDraw 99 r)]
    = Ok ([u; u; u], a') /\ untrained a'.
Proof.
  apply (proj2 run_quiet_learns_nothing
           [(Examples.s_plain, mkDraw 50 l); (Examples.s_plain, mkDraw 7 d);
            (Examples.s_plain, mkDraw 99 r)]
           Examples.a_fresh).
  - unfold untrained, prev_recorded. simpl.
    repeat split. intros k row Hk. rewrite lookup_empty in Hk. discriminate.
  - repeat constructor; simpl; lia.
Defined.

(** ** Calling [qLearning] with no previous transition *)

(** X15. Called on an agent that has no previous transition, with the
    state's key in the table under a row of one to five entries,
    [qLearning] raises [AttributeError] (from [self.prevState.key]) even
    though the selection of the action, which it makes first, returns
    one. *)
Theorem qLearning_without_previous (a : Agent) (s : State) (dr : Draw)
    (row : list float) :
  prevState a = None ->
  q a !! _compute_key s = Some row ->
  row <> [] -> (length row <= 5)%nat ->
  (exists act, findBestAction a (_compute_key s) dr = Ok act) /\
  qLearning a s dr = Raise AttributeError.
Proof.
  intros Hps Hk Hne Hlen.
  destruct (findBestAction_ok a (_compute_key s) dr row Hk Hne Hlen) as [act Hsel].
  split; [exists act; exact Hsel |].
  unfold qLearning. simpl key.
  destruct (decide (is_Some (q a !! _compute_key s))) as [_ | Hno];
    [| exfalso; apply Hno; eauto].
  rewrite Hsel. simpl. rewrite Hps. reflexivity.
Qed.

Lemma qLearning_without_previous_witness :
  findBestAction Examples.a_tie Examples.k_blank (mkDraw 50 l) = Ok d /\
  qLearning Examples.a_tie Examples.s_plain (mkDraw 50 l) = Raise AttributeError.
Proof.
  split; [reflexivity |].
  apply (qLearning_without_previous Examples.a_tie Examples.s_plain
           (mkDraw 50 l) Examples.tied_row);
    [reflexivity | reflexivity | discriminate | simpl; lia].
Defined.
